(** * BaseEventEmitter: a shallow embedding of src/BaseEventEmitter.js

    The emitter keeps one [EventSubscriptionVendor] and the field
    [_currentSubscription].  Listeners are caller-supplied JavaScript
    functions that may call back into the emitter while they run, so the
    embedding threads an explicit world through every call and gives the
    call stack a fuel bound: one unit per function invocation. *)

From Stdlib Require Import ZArith.
From stdpp Require Import base option list sorting strings gmap.

(** ** Data model *)

Definition EventType := string.

(** Names of the caller-supplied listener functions. *)
Definition FnName := nat.

(** JavaScript values that travel as receivers and arguments. *)
Inductive Value :=
| VUndefined
| VNull
| VString (s : string)
| VNumber (z : Z)
| VObject (id : nat).

#[global] Instance Value_eq_dec : EqDecision Value.
Proof. solve_decision. Defined.

(** A listener stored in a subscription is either a caller-supplied
    function or the closure that [once] builds around one
    (BaseEventEmitter.js, lines 71-74). *)
Inductive Listener :=
| UserFn (f : FnName)
| OnceWrapper (listener : FnName) (context : Value).

#[global] Instance Listener_eq_dec : EqDecision Listener.
Proof. solve_decision. Defined.

(** An [EmitterSubscription] once the vendor has stamped it with its
    event type and slot key. *)
Record EmitterSubscription := mkSubscription {
  listener : Listener;
  context : Value;
  eventType : EventType;
  key : nat
}.

#[global] Instance EmitterSubscription_eq_dec : EqDecision EmitterSubscription.
Proof. solve_decision. Defined.

(** A JavaScript array with holes: [None] is a deleted slot. *)
Abbreviation Slots := (list (option EmitterSubscription)).

(** What the calls observe: [Dispatched] is recorded where
    [__emitToSubscription] applies the stored listener, [Entered] where a
    caller-supplied function starts running. *)
Inductive Event :=
| Dispatched (subscription : EmitterSubscription) (args : list Value)
| Entered (f : FnName) (this : Value) (args : list Value).

#[global] Instance Event_eq_dec : EqDecision Event.
Proof. solve_decision. Defined.

(** The emitter instance together with the arrays it refers to.  Arrays
    are objects: [_subscriptionsForType] holds references into [heap], so
    that the array fetched by [emit] stays the same object even when the
    vendor drops or replaces the bucket in the meantime. *)
Record World := mkWorld {
  heap : list Slots;
  _subscriptionsForType : gmap EventType nat;
  _currentSubscription : option EmitterSubscription;
  trace : list Event
}.

Definition set_heap (h : list Slots) (w : World) : World :=
  mkWorld h (_subscriptionsForType w) (_currentSubscription w) (trace w).
Definition set_subscriptionsForType (m : gmap EventType nat) (w : World) : World :=
  mkWorld (heap w) m (_currentSubscription w) (trace w).
Definition set_currentSubscription (c : option EmitterSubscription) (w : World) : World :=
  mkWorld (heap w) (_subscriptionsForType w) c (trace w).
Definition record (e : Event) (w : World) : World :=
  mkWorld (heap w) (_subscriptionsForType w) (_currentSubscription w) (trace w ++ [e]).

(** [new BaseEventEmitter()]. *)
Definition constructor : World := mkWorld [] ∅ None [].

(** The array behind a reference. *)
Definition deref (r : nat) (w : World) : Slots := default [] (heap w !! r).

(** ** EventSubscriptionVendor *)

(** Modelled from the spec: EventSubscriptionVendor.js is not among the
    sources; section 4.1 gives [addSubscription]: append to the ordered
    collection of the type, creating it if absent, with the slot key the
    position of the new entry. *)
Definition addSubscription (t : EventType) (l : Listener) (c : Value) (w : World)
  : EmitterSubscription * World :=
  match _subscriptionsForType w !! t with
  | Some r =>
      let s := mkSubscription l c t (length (deref r w)) in
      (s, set_heap (alter (λ a, a ++ [Some s]) r (heap w)) w)
  | None =>
      let s := mkSubscription l c t 0 in
      (s, set_subscriptionsForType (<[t := length (heap w)]> (_subscriptionsForType w))
            (set_heap (heap w ++ [[Some s]]) w))
  end.

(** Modelled from the spec: section 4.1, [getSubscriptionsForType]: a
    reference to the live collection, or undefined when none exists. *)
Definition getSubscriptionsForType (t : EventType) (w : World) : option nat :=
  _subscriptionsForType w !! t.

(** Modelled from the spec: section 4.1, [removeSubscription]: mark the
    slot of the subscription absent within the collection of its event
    type; nothing happens for an unknown type or an absent slot. *)
Definition removeSubscription (s : EmitterSubscription) (w : World) : World :=
  match _subscriptionsForType w !! eventType s with
  | Some r => set_heap (alter (λ a, <[key s := None]> a) r (heap w)) w
  | None => w
  end.

(** Modelled from the spec: section 4.1, [removeAllSubscriptions]: with a
    type, drop that bucket; without, drop every bucket. *)
Definition removeAllSubscriptions (t : option EventType) (w : World) : World :=
  match t with
  | Some t => set_subscriptionsForType (delete t (_subscriptionsForType w)) w
  | None => set_subscriptionsForType ∅ w
  end.

(** ** Outcomes of a call *)

Inductive Outcome :=
| Returned (w : World)
| Thrown (message : string) (w : World)
| OutOfFuel.

Definition bind (o : Outcome) (k : World → Outcome) : Outcome :=
  match o with
  | Returned w => k w
  | Thrown m w => Thrown m w
  | OutOfFuel => OutOfFuel
  end.

Notation "'let!' w := o 'in' k" := (bind o (λ w, k))
  (at level 10, w name, o at level 100, k at level 200, only parsing).

(** ** What a listener body may do to the emitter *)

Inductive Action :=
| CallAddListener (t : EventType) (f : FnName) (c : Value)
| CallOnce (t : EventType) (f : FnName) (c : Value)
| CallRemoveAllListeners (t : option EventType)
| CallRemoveCurrentListener
| CallRemove (s : EmitterSubscription)
| CallEmit (t : EventType) (args : list Value)
| ThrowError (message : string).

(** ** BaseEventEmitter *)

(** Lines 52-57. *)
Definition addListener (t : EventType) (l : Listener) (c : Value) (w : World)
  : EmitterSubscription * World :=
  addSubscription t l c w.

(** Lines 69-75: the wrapper is registered without a context. *)
Definition once (t : EventType) (f : FnName) (c : Value) (w : World)
  : EmitterSubscription * World :=
  addListener t (OnceWrapper f c) VUndefined w.

(** Lines 84-86. *)
Definition removeAllListeners (t : option EventType) (w : World) : World :=
  removeAllSubscriptions t w.

Definition not_emitting : string :=
  "Not in an emitting cycle; there is no current subscription".

(** Lines 110-115. *)
Definition removeCurrentListener (w : World) : Outcome :=
  match _currentSubscription w with
  | None => Thrown not_emitting w
  | Some s => Returned (removeSubscription s w)
  end.

(** [subscriptions.filter(() => true)]: the filled slots, in index order. *)
Definition filter_true (a : Slots) : list EmitterSubscription := omap id a.

(** Lines 124-132. *)
Definition listeners (t : EventType) (w : World) : list EmitterSubscription :=
  match getSubscriptionsForType t w with
  | Some r => filter_true (deref r w)
  | None => []
  end.

(** [Object.keys] of an array: the indices of the filled slots, ascending. *)
Fixpoint keys_from (i : nat) (a : Slots) : list nat :=
  match a with
  | [] => []
  | Some _ :: a' => i :: keys_from (S i) a'
  | None :: a' => keys_from (S i) a'
  end.

Definition Object_keys (a : Slots) : list nat := keys_from 0 a.

(** [subscriptions[key]]: undefined for a hole and past the end. *)
Definition slot (r k : nat) (w : World) : option EmitterSubscription :=
  mjoin (deref r w !! k).

Section Emitter.

(** The body of each caller-supplied function, given its receiver and
    its arguments. *)
Variable code : FnName → Value → list Value → list Action.

Section Calls.

(** How a stored listener is applied; the knot is tied in [invoke]. *)
Variable apply : Listener → Value → list Value → World → Outcome.

(** Lines 177-180.  [rest] is [arguments] after the subscription:
    the event type followed by the emitted data. *)
Definition __emitToSubscription (subscription : EmitterSubscription)
    (rest : list Value) (w : World) : Outcome :=
  let args := drop 1 rest in
  apply (listener subscription) (context subscription) args
        (record (Dispatched subscription args) w).

(** Lines 152-163: the loop over the snapshotted keys, reading the
    live array [r] at each key. *)
Fixpoint emit_loop (r : nat) (arguments : list Value) (keys : list nat)
    (w : World) : Outcome :=
  match keys with
  | [] => Returned w
  | k :: keys' =>
      match slot r k w with
      | Some subscription =>
          let! w' := __emitToSubscription subscription arguments
                       (set_currentSubscription (Some subscription) w) in
          emit_loop r arguments keys' w'
      | None => emit_loop r arguments keys' w
      end
  end.

(** Lines 148-166. *)
Definition emit (t : EventType) (args : list Value) (w : World) : Outcome :=
  match getSubscriptionsForType t w with
  | Some r =>
      let! w' := emit_loop r (VString t :: args) (Object_keys (deref r w)) w in
      Returned (set_currentSubscription None w')
  | None => Returned w
  end.

(** One call on the emitter (or on a subscription handle). *)
Definition step (a : Action) (w : World) : Outcome :=
  match a with
  | CallAddListener t f c => Returned (addListener t (UserFn f) c w).2
  | CallOnce t f c => Returned (once t f c w).2
  | CallRemoveAllListeners t => Returned (removeAllListeners t w)
  | CallRemoveCurrentListener => removeCurrentListener w
  | CallRemove s => Returned (removeSubscription s w)
  | CallEmit t args => emit t args w
  | ThrowError m => Thrown m w
  end.

Fixpoint run (body : list Action) (w : World) : Outcome :=
  match body with
  | [] => Returned w
  | a :: body' => let! w' := step a w in run body' w'
  end.

End Calls.

(** Applying a stored listener: a caller-supplied function runs its
    body; the [once] closure first removes the current listener and
    then applies the wrapped function with the original context. *)
Fixpoint invoke (fuel : nat) (l : Listener) (this : Value) (args : list Value)
    (w : World) : Outcome :=
  match fuel with
  | 0 => OutOfFuel
  | S fuel' =>
      match l with
      | UserFn f =>
          run (invoke fuel') (code f this args) (record (Entered f this args) w)
      | OnceWrapper f c =>
          let! w' := removeCurrentListener w in
          invoke fuel' (UserFn f) c args w'
      end
  end.

(** A call made by the client, outside any listener. *)
Definition api (fuel : nat) (a : Action) (w : World) : Outcome :=
  step (invoke fuel) a w.

Definition api_run (fuel : nat) (body : list Action) (w : World) : Outcome :=
  run (invoke fuel) body w.

End Emitter.

(** ** Observations on traces *)

(** The subscriptions that [__emitToSubscription] was called with. *)
Definition dispatched (tr : list Event) : list EmitterSubscription :=
  omap (λ e, match e with Dispatched s _ => Some s | Entered _ _ _ => None end) tr.

(** The caller-supplied function behind a stored listener, and the
    receiver it is applied to when the subscription fires. *)
Definition target (s : EmitterSubscription) : FnName :=
  match listener s with UserFn f => f | OnceWrapper f _ => f end.

Definition receiver (s : EmitterSubscription) : Value :=
  match listener s with UserFn _ => context s | OnceWrapper _ c => c end.

(** What one firing of [s] with the data [args] leaves in the trace when
    the body starts no emission of its own. *)
Definition firing (args : list Value) (s : EmitterSubscription) : list Event :=
  [Dispatched s args; Entered (target s) (receiver s) args].

(** ** Well-formed worlds

    Every bucket refers to an allocated array, distinct event types have
    distinct arrays, and a subscription stored in a bucket carries the
    type of the bucket and the index of its slot. *)
Record wf (w : World) : Prop := mk_wf {
  wf_alloc : ∀ t r, _subscriptionsForType w !! t = Some r → r < length (heap w);
  wf_inj : ∀ t1 t2 r,
    _subscriptionsForType w !! t1 = Some r →
    _subscriptionsForType w !! t2 = Some r → t1 = t2;
  wf_slot : ∀ t r k s,
    _subscriptionsForType w !! t = Some r →
    slot r k w = Some s → eventType s = t ∧ key s = k
}.

(** ** Classes of listener bodies *)

(** A body that only registers listeners. *)
Definition adds_only (a : Action) : bool :=
  match a with
  | CallAddListener _ _ _ | CallOnce _ _ _ => true
  | _ => false
  end.

(** A body that registers and removes single listeners, but neither
    emits, nor throws, nor drops whole buckets. *)
Definition tame (a : Action) : bool :=
  match a with
  | CallAddListener _ _ _ | CallOnce _ _ _
  | CallRemoveCurrentListener | CallRemove _ => true
  | _ => false
  end.

(** A body that starts no emission of its own. *)
Definition no_emit (a : Action) : bool :=
  match a with
  | CallEmit _ _ => false
  | _ => true
  end.

(** The slots that a body asks the vendor to clear, given the current
    subscription while it runs. *)
Definition removal (cur : option EmitterSubscription) (a : Action)
  : list (EventType * nat) :=
  match a with
  | CallRemove s => [(eventType s, key s)]
  | CallRemoveCurrentListener =>
      match cur with Some s => [(eventType s, key s)] | None => [] end
  | _ => []
  end.

Definition removals (cur : option EmitterSubscription) (body : list Action)
  : list (EventType * nat) :=
  flat_map (removal cur) body.

(** The body that runs when [s] fires with the data [args]. *)
Definition body_of (code : FnName → Value → list Value → list Action)
    (s : EmitterSubscription) (args : list Value) : list Action :=
  code (target s) (receiver s) args.

(** Everything that gets cleared while [s] fires with the data [args]:
    the [once] closure clears the slot of [s] itself before the wrapped
    function runs. *)
Definition cleared (code : FnName → Value → list Value → list Action)
    (args : list Value) (s : EmitterSubscription) : list (EventType * nat) :=
  match listener s with
  | OnceWrapper _ _ => [(eventType s, key s)]
  | UserFn _ => []
  end ++ removals (Some s) (body_of code s args).

(** The emission cycle in the words of the specification: go through
    the listeners snapshotted at the start in registration order, skip
    the ones removed so far, and let each one that fires add what it
    clears. *)
Fixpoint survivors (code : FnName → Value → list Value → list Action)
    (args : list Value) (snapshot : list EmitterSubscription)
    (gone : list (EventType * nat)) : list EmitterSubscription :=
  match snapshot with
  | [] => []
  | s :: snapshot' =>
      if decide ((eventType s, key s) ∈ gone) then survivors code args snapshot' gone
      else s :: survivors code args snapshot' (gone ++ cleared code args s)
  end.

(** Registration order within one bucket: slot keys grow with every
    registration. *)
Definition earlier (a b : EmitterSubscription) : Prop := key a < key b.

(** The registration that a call asks for, if it is one: event type,
    stored listener and stored context. *)
Definition registers (a : Action) : option (EventType * Listener * Value) :=
  match a with
  | CallAddListener t f c => Some (t, UserFn f, c)
  | CallOnce t f c => Some (t, OnceWrapper f c, VUndefined)
  | _ => None
  end.


(** While a listener runs and starts no emission, the field keeps the
    subscription that is firing, whether the body returns or throws. *)
Definition keeps_current (s : EmitterSubscription) (w : World) (o : Outcome) : Prop :=
  match o with
  | Returned w' | Thrown _ w' =>
      _currentSubscription w' = Some s ∧
      dispatched (trace w') = dispatched (trace w)
  | OutOfFuel => True
  end.

(** ** Invariants of arbitrary call sequences *)

(** Unless the fuel ran out, the call ended, by return or by throw, in a
    world satisfying [Q]. *)
Definition ends_in (Q : World → Prop) (o : Outcome) : Prop :=
  match o with
  | Returned w' | Thrown _ w' => Q w'
  | OutOfFuel => True
  end.

(** The call started in [w] and ended in a world that satisfies [Inv]
    and is related to [w] by [R]. *)
Definition carries (Inv : World → Prop) (R : World → World → Prop)
    (w : World) (o : Outcome) : Prop :=
  ends_in (λ w', Inv w' ∧ R w w') o.

Definition is_emit (a : Action) : bool :=
  match a with
  | CallEmit _ _ => true
  | _ => false
  end.

(** A call that drops no bucket. *)
Definition keeps_buckets (a : Action) : bool :=
  match a with
  | CallRemoveAllListeners _ => false
  | _ => true
  end.

(** A call that neither emits nor drops a bucket; it may throw. *)
Definition plain (a : Action) : bool := no_emit a && keeps_buckets a.

(** How often [s] was handed to [__emitToSubscription] in a trace. *)
Definition times (s : EmitterSubscription) (tr : list Event) : nat :=
  length (filter (λ x, x = s) (dispatched tr)).

(** [w'] comes after [w] when no bucket was dropped in between: buckets
    persist, arrays only grow, a filled slot of an old index held the same
    subscription before, and whatever was dispatched in between was in its
    bucket at the start or was registered later. *)
Record extends (w w' : World) : Prop := mk_extends {
  ext_buckets : ∀ t r,
    _subscriptionsForType w !! t = Some r → _subscriptionsForType w' !! t = Some r;
  ext_length : ∀ r, length (deref r w) ≤ length (deref r w');
  ext_slot : ∀ r k x,
    k < length (deref r w) → slot r k w' = Some x → slot r k w = Some x;
  ext_trace : ∃ δ, trace w' = trace w ++ δ ∧
    ∀ x, x ∈ dispatched δ → ∀ r,
      _subscriptionsForType w !! eventType x = Some r →
      slot r (key x) w = Some x ∨ length (deref r w) ≤ key x
}.

(** [extends], and between [w] and [w'] the subscription [s] of slot
    [key s] of the array [r] of type [t] was dispatched at most once; if it
    was, its slot was filled in [w] and is cleared in [w']. *)
Definition once_spent (s : EmitterSubscription) (t : EventType) (r : nat)
    (w w' : World) : Prop :=
  extends w w' ∧
  (_subscriptionsForType w !! t = Some r → key s < length (deref r w) →
   ∀ δ, trace w' = trace w ++ δ →
     times s δ ≤ 1 ∧
     (0 < times s δ → slot r (key s) w = Some s ∧ slot r (key s) w' = None)).

(** ** The hook as a parameter

    [emit] reaches the listeners through the method [__emitToSubscription],
    which a subclass may override (lines 168-176).  [emit_via] is [emit]
    with that method as a parameter. *)

Fixpoint emit_loop_via (hook : EmitterSubscription → list Value → World → Outcome)
    (r : nat) (arguments : list Value) (keys : list nat) (w : World) : Outcome :=
  match keys with
  | [] => Returned w
  | k :: keys' =>
      match slot r k w with
      | Some subscription =>
          let! w' := hook subscription arguments
                       (set_currentSubscription (Some subscription) w) in
          emit_loop_via hook r arguments keys' w'
      | None => emit_loop_via hook r arguments keys' w
      end
  end.

Definition emit_via (hook : EmitterSubscription → list Value → World → Outcome)
    (t : EventType) (args : list Value) (w : World) : Outcome :=
  match getSubscriptionsForType t w with
  | Some r =>
      let! w' := emit_loop_via hook r (VString t :: args) (Object_keys (deref r w)) w in
      Returned (set_currentSubscription None w')
  | None => Returned w
  end.

(** ** Sample clients, after src/__tests__/BaseEventEmitter-test.js *)

Module Samples.

Local Open Scope string_scope.

Definition data : Value := VString "data".
Definition ctx : Value := VObject 1.

(** Listeners that do nothing to the emitter. *)
Definition quiet : FnName → Value → list Value → list Action :=
  λ _ _ _, [].

(** Listener 1 registers listener 0 for the type it listens on. *)
Definition adder : FnName → Value → list Value → list Action :=
  λ f _ _, match f with
           | 1 => [CallAddListener "type1" 0 VUndefined]
           | _ => []
           end.

Definition subscription2 : EmitterSubscription :=
  mkSubscription (UserFn 0) VUndefined "type1" 1.

(** Listener 1 cancels the handle of the second registration; listener
    2 cancels itself. *)
Definition remover : FnName → Value → list Value → list Action :=
  λ f _ _, match f with
           | 1 => [CallRemove subscription2]
           | 2 => [CallRemoveCurrentListener]
           | _ => []
           end.

(** Listener 3 throws. *)
Definition thrower : FnName → Value → list Value → list Action :=
  λ f _ _, match f with
           | 3 => [ThrowError "boom"]
           | _ => []
           end.

(** Listeners 4 and 5 emit another event before they go on. *)
Definition nester : FnName → Value → list Value → list Action :=
  λ f _ _, match f with
           | 4 => [CallEmit "type2" []; CallRemoveCurrentListener]
           | 5 => [CallEmit "type2" []; ThrowError "boom"]
           | _ => []
           end.

(** One listener 0 on "type1", registered with a context. *)
Definition one : World := (addListener "type1" (UserFn 0) ctx constructor).2.

(** Listener 1 then listener 0 on "type1". *)
Definition two : World :=
  (addListener "type1" (UserFn 0) VUndefined
     (addListener "type1" (UserFn 1) VUndefined constructor).2).2.

(** Listener 3 on "type1". *)
Definition throwing : World :=
  (addListener "type1" (UserFn 3) VUndefined constructor).2.

(** Listener [f] on "type1" and listener 0 on "type2". *)
Definition nested (f : FnName) : World :=
  (addListener "type2" (UserFn 0) VUndefined
     (addListener "type1" (UserFn f) VUndefined constructor).2).2.

(** Listener 6 emits the event it listens on. *)
Definition reentrant : FnName → Value → list Value → list Action :=
  λ f _ _, match f with
           | 6 => [CallEmit "type1" []]
           | _ => []
           end.

(** Listener 6 on "type1", registered through [once]. *)
Definition once_reentrant : World := (once "type1" 6 ctx constructor).2.

(** Listeners 0, 3 and 0 on "type1". *)
Definition around : World :=
  (addListener "type1" (UserFn 0) VUndefined
     (addListener "type1" (UserFn 3) VUndefined
        (addListener "type1" (UserFn 0) VUndefined constructor).2).2).2.










End Samples.

(** * Properties *)

(** ** Arrays and references *)

Lemma deref_alter_eq (f : Slots → Slots) r w :
  r < length (heap w) →
  deref r (set_heap (alter f r (heap w)) w) = f (deref r w).
Proof.
  intros Hr. unfold deref; simpl.
  destruct (lookup_lt_is_Some_2 (heap w) r Hr) as [a Ha].
  rewrite list_lookup_alter_eq, Ha. reflexivity.
Qed.

Lemma deref_alter_ne (f : Slots → Slots) r r' w :
  r ≠ r' →
  deref r' (set_heap (alter f r (heap w)) w) = deref r' w.
Proof.
  intros Hne. unfold deref; simpl.
  rewrite list_lookup_alter_ne by done. reflexivity.
Qed.

Lemma slot_lt r k w s : slot r k w = Some s → k < length (deref r w).
Proof.
  unfold slot. intros H.
  destruct (deref r w !! k) eqn:E; [|done].
  eapply lookup_lt_Some; eauto.
Qed.

Lemma elem_of_filter_true (a : Slots) s :
  s ∈ filter_true a ↔ ∃ k, a !! k = Some (Some s).
Proof.
  unfold filter_true. rewrite list_elem_of_omap. split.
  - intros (o & Ho & Hs). simpl in Hs. subst o.
    apply list_elem_of_lookup in Ho. exact Ho.
  - intros (k & Hk). exists (Some s). split; [|done].
    apply list_elem_of_lookup. eauto.
Qed.

Lemma slot_Some r k w s : slot r k w = Some s ↔ deref r w !! k = Some (Some s).
Proof.
  unfold slot. destruct (deref r w !! k) as [[s'|]|]; simpl; split; congruence.
Qed.

Lemma elem_of_listeners t w s :
  s ∈ listeners t w ↔
  ∃ r k, _subscriptionsForType w !! t = Some r ∧ slot r k w = Some s.
Proof.
  unfold listeners, getSubscriptionsForType.
  destruct (_subscriptionsForType w !! t) as [r|] eqn:E.
  - rewrite elem_of_filter_true. split.
    + intros (k & Hk). exists r, k. by rewrite slot_Some.
    + intros (r' & k & Hr & Hk). simplify_eq. exists k. by apply slot_Some.
  - split; [by intros ?%elem_of_nil | by intros (? & ? & ? & _)].
Qed.

(** [Object.keys] lists exactly the filled indices, in ascending order. *)
Lemma elem_of_keys_from (a : Slots) i k :
  k ∈ keys_from i a ↔ i ≤ k ∧ ∃ s, a !! (k - i) = Some (Some s).
Proof.
  revert i. induction a as [|[s|] a IH]; intros i; simpl.
  - split; [by intros ?%elem_of_nil | by intros (_ & ? & ?)].
  - rewrite elem_of_cons, IH. split.
    + intros [->|(Hle & s' & Hs')].
      * split; [lia|]. exists s. by rewrite Nat.sub_diag.
      * split; [lia|]. exists s'.
        replace (k - i) with (S (k - S i)) by lia. exact Hs'.
    + intros (Hle & s' & Hs').
      destruct (decide (k = i)) as [->|Hne]; [by left|right].
      split; [lia|]. exists s'.
      replace (k - i) with (S (k - S i)) in Hs' by lia. exact Hs'.
  - rewrite IH. split.
    + intros (Hle & s' & Hs'). split; [lia|]. exists s'.
      replace (k - i) with (S (k - S i)) by lia. exact Hs'.
    + intros (Hle & s' & Hs').
      destruct (decide (k = i)) as [->|Hne].
      * rewrite Nat.sub_diag in Hs'. done.
      * split; [lia|]. exists s'.
        replace (k - i) with (S (k - S i)) in Hs' by lia. exact Hs'.
Qed.

Lemma elem_of_Object_keys (a : Slots) k :
  k ∈ Object_keys a ↔ ∃ s, a !! k = Some (Some s).
Proof.
  unfold Object_keys. rewrite elem_of_keys_from, Nat.sub_0_r.
  split; [by intros [_ ?] | intros ?; split; [lia|done]].
Qed.

Lemma keys_from_sorted (a : Slots) i : StronglySorted lt (keys_from i a).
Proof.
  revert i. induction a as [|[s|] a IH]; intros i; simpl.
  - constructor.
  - constructor; [apply IH|].
    apply Forall_forall. intros k Hk%elem_of_keys_from. lia.
  - apply IH.
Qed.

(** Reading the live array at the snapshotted keys gives back the
    listeners, as long as nothing has changed. *)
Lemma filter_true_keys_from (a : Slots) i :
  filter_true a = omap (λ k, mjoin (a !! (k - i))) (keys_from i a).
Proof.
  unfold filter_true.
  revert i. induction a as [|[s|] a IH]; intros i; csimpl; [done| |].
  - rewrite Nat.sub_diag. csimpl. f_equal.
    change (list_omap _ _ ?f ?l) with (omap f l). rewrite (IH (S i)).
    apply list_omap_ext. apply Forall2_same_length_lookup_2; [done|].
    intros j k k' Hk Hk'. simplify_eq.
    assert (k ∈ keys_from (S i) a) as Hin%elem_of_keys_from
      by (apply list_elem_of_lookup; eauto).
    replace (k - i) with (S (k - S i)) by lia. done.
  - change (list_omap _ _ ?f ?l) with (omap f l). rewrite (IH (S i)).
    apply list_omap_ext. apply Forall2_same_length_lookup_2; [done|].
    intros j k k' Hk Hk'. simplify_eq.
    assert (k ∈ keys_from (S i) a) as Hin%elem_of_keys_from
      by (apply list_elem_of_lookup; eauto).
    replace (k - i) with (S (k - S i)) by lia. done.
Qed.

(** ** Well-formedness is kept by the vendor *)

Lemma wf_constructor : wf constructor.
Proof.
  split; unfold constructor; simpl.
  - intros t r H. by rewrite lookup_empty in H.
  - intros t1 t2 r H. by rewrite lookup_empty in H.
  - intros t r k s H. by rewrite lookup_empty in H.
Qed.

Lemma wf_same w w' :
  heap w' = heap w → _subscriptionsForType w' = _subscriptionsForType w →
  wf w → wf w'.
Proof.
  intros Hh Hm [H1 H2 H3]. split.
  - intros t r. rewrite Hh, Hm. apply H1.
  - intros t1 t2 r. rewrite Hm. apply H2.
  - intros t r k s. rewrite Hm. unfold slot, deref. rewrite Hh. apply H3.
Qed.

Lemma wf_set_currentSubscription c w : wf w → wf (set_currentSubscription c w).
Proof. by apply wf_same. Qed.

Lemma wf_record e w : wf w → wf (record e w).
Proof. by apply wf_same. Qed.

(** The array of a bucket after a registration. *)
Lemma deref_addSubscription t l c w t' r' :
  wf w → _subscriptionsForType w !! t' = Some r' →
  deref r' (addSubscription t l c w).2 =
  deref r' w ++ (if decide (t' = t) then [Some (addSubscription t l c w).1] else []).
Proof.
  intros Hwf Ht'. unfold addSubscription.
  destruct (_subscriptionsForType w !! t) as [r|] eqn:Ht; simpl.
  - destruct (decide (t' = t)) as [->|Hne].
    + simplify_eq. rewrite deref_alter_eq; [done|]. by eapply wf_alloc.
    + rewrite deref_alter_ne, app_nil_r; [done|].
      intros ->. apply Hne. by eapply wf_inj.
  - destruct (decide (t' = t)) as [->|Hne]; [congruence|].
    rewrite app_nil_r. unfold deref; simpl.
    rewrite lookup_app_l; [done|]. by eapply wf_alloc.
Qed.

Lemma lookup_addSubscription_mono t l c w t' r' :
  _subscriptionsForType w !! t' = Some r' →
  _subscriptionsForType (addSubscription t l c w).2 !! t' = Some r'.
Proof.
  intros Ht'. unfold addSubscription.
  destruct (_subscriptionsForType w !! t) as [r|] eqn:Ht; simpl; [done|].
  rewrite lookup_insert_ne; [done|]. congruence.
Qed.

Lemma addSubscription_fst t l c w :
  (addSubscription t l c w).1 =
  mkSubscription l c t
    (match _subscriptionsForType w !! t with Some r => length (deref r w) | None => 0 end).
Proof.
  unfold addSubscription.
  by destruct (_subscriptionsForType w !! t) as [r|] eqn:Ht; simpl.
Qed.

Lemma addSubscription_frame t l c w :
  _currentSubscription (addSubscription t l c w).2 = _currentSubscription w ∧
  trace (addSubscription t l c w).2 = trace w.
Proof.
  unfold addSubscription.
  by destruct (_subscriptionsForType w !! t) as [r|] eqn:Ht; simpl.
Qed.

Lemma wf_addSubscription t l c w : wf w → wf (addSubscription t l c w).2.
Proof.
  intros Hwf.
  pose proof (deref_addSubscription t l c w) as Hd.
  pose proof (addSubscription_fst t l c w) as Hs.
  unfold addSubscription in *.
  destruct (_subscriptionsForType w !! t) as [r|] eqn:Ht; simpl in *.
  - split; simpl.
    + intros t' r' Hr'. rewrite length_alter. by eapply wf_alloc.
    + intros t1 t2 r'. by apply wf_inj.
    + intros t' r' k s Hr' Hk.
      apply slot_Some in Hk. rewrite (Hd t' r' Hwf Hr') in Hk.
      apply lookup_app_Some in Hk as [Hk|[Hlen Hk]].
      * eapply (wf_slot w Hwf); [done|]. by apply slot_Some.
      * destruct (decide (t' = t)) as [->|]; [|by rewrite lookup_nil in Hk].
        apply list_lookup_singleton_Some in Hk as [Hk Hx]. simplify_eq.
        simpl. split; [done|lia].
  - split; simpl.
    + intros t' r'. rewrite length_app. simpl.
      destruct (decide (t = t')) as [->|Hne].
      * rewrite lookup_insert_eq. intros ?; simplify_eq. lia.
      * rewrite lookup_insert_ne by done. intros H%(wf_alloc w Hwf). lia.
    + intros t1 t2 r'.
      rewrite !lookup_insert.
      destruct (decide (t = t1)) as [Heq1|Hne1], (decide (t = t2)) as [Heq2|Hne2].
      * congruence.
      * intros ? H%(wf_alloc w Hwf). simplify_eq. lia.
      * intros H%(wf_alloc w Hwf) ?. simplify_eq. lia.
      * by apply wf_inj.
    + intros t' r' k s.
      destruct (decide (t = t')) as [->|Hne].
      * rewrite lookup_insert_eq. intros ?; simplify_eq.
        rewrite slot_Some. unfold deref; simpl.
        rewrite lookup_app_r, Nat.sub_diag by done. simpl.
        intros [Hk Hx]%list_lookup_singleton_Some. by simplify_eq.
      * rewrite lookup_insert_ne by done. intros Hr' Hk.
        eapply (wf_slot w Hwf); [done|].
        apply slot_Some. apply slot_Some in Hk.
        unfold deref in *; simpl in Hk.
        rewrite lookup_app_l in Hk; [done|]. by eapply wf_alloc.
Qed.

(** The array of a bucket after a cancellation. *)
Lemma deref_removeSubscription s w t' r' :
  wf w → _subscriptionsForType w !! t' = Some r' →
  deref r' (removeSubscription s w) =
  if decide (t' = eventType s) then <[key s := None]> (deref r' w) else deref r' w.
Proof.
  intros Hwf Ht'. unfold removeSubscription.
  destruct (_subscriptionsForType w !! eventType s) as [r|] eqn:Ht.
  - destruct (decide (t' = eventType s)) as [->|Hne].
    + simplify_eq. rewrite deref_alter_eq; [done|]. by eapply wf_alloc.
    + rewrite deref_alter_ne; [done|].
      intros ->. apply Hne. by eapply wf_inj.
  - destruct (decide (t' = eventType s)) as [->|Hne]; [congruence|done].
Qed.

Lemma removeSubscription_frame s w :
  _subscriptionsForType (removeSubscription s w) = _subscriptionsForType w ∧
  _currentSubscription (removeSubscription s w) = _currentSubscription w ∧
  trace (removeSubscription s w) = trace w.
Proof.
  unfold removeSubscription.
  by destruct (_subscriptionsForType w !! eventType s).
Qed.

Lemma slot_removeSubscription s w t' r' k :
  wf w → _subscriptionsForType w !! t' = Some r' →
  slot r' k (removeSubscription s w) =
  if decide ((t', k) = (eventType s, key s)) then None else slot r' k w.
Proof.
  intros Hwf Ht'. unfold slot. rewrite (deref_removeSubscription s w t' r' Hwf Ht').
  destruct (decide (t' = eventType s)) as [->|Hne].
  - destruct (decide (k = key s)) as [->|Hk].
    + rewrite decide_True by done.
      destruct (decide (key s < length (deref r' w))).
      * by rewrite list_lookup_insert_eq.
      * rewrite list_insert_ge by lia. by rewrite lookup_ge_None_2 by lia.
    + rewrite decide_False by congruence.
      by rewrite list_lookup_insert_ne.
  - by rewrite decide_False by congruence.
Qed.

Lemma wf_removeSubscription s w : wf w → wf (removeSubscription s w).
Proof.
  intros Hwf.
  destruct (removeSubscription_frame s w) as (Hm & _ & _).
  split.
  - intros t r. rewrite Hm. intros Hr.
    unfold removeSubscription.
    destruct (_subscriptionsForType w !! eventType s); simpl;
      rewrite ?length_alter; by eapply wf_alloc.
  - intros t1 t2 r. rewrite Hm. by apply wf_inj.
  - intros t r k s'. rewrite Hm. intros Hr.
    rewrite (slot_removeSubscription s w t r k Hwf Hr).
    case_decide; [done|]. by apply wf_slot.
Qed.

Lemma length_deref_removeSubscription s w t' r' :
  wf w → _subscriptionsForType w !! t' = Some r' →
  length (deref r' (removeSubscription s w)) = length (deref r' w).
Proof.
  intros Hwf Ht'. rewrite (deref_removeSubscription s w t' r' Hwf Ht').
  case_decide; [apply length_insert|done].
Qed.

(** ** Bodies that neither emit, nor throw, nor drop buckets *)

Section Tame.

Variable apply : Listener → Value → list Value → World → Outcome.
Variables (t : EventType) (r : nat).

(** What one tame call does to the array that an emission iterates. *)
Lemma step_tame a w :
  wf w → _subscriptionsForType w !! t = Some r → tame a = true →
  is_Some (_currentSubscription w) →
  ∃ w', step apply a w = Returned w' ∧ wf w' ∧
    _subscriptionsForType w' !! t = Some r ∧
    _currentSubscription w' = _currentSubscription w ∧
    trace w' = trace w ∧
    length (deref r w) ≤ length (deref r w') ∧
    (∀ k, k < length (deref r w) →
       slot r k w' =
       if decide ((t, k) ∈ removal (_currentSubscription w) a) then None
       else slot r k w).
Proof.
  intros Hwf Hr Ha Hcur.
  assert (∀ l c t0, let w' := (addSubscription t0 l c w).2 in
    wf w' ∧ _subscriptionsForType w' !! t = Some r ∧
    _currentSubscription w' = _currentSubscription w ∧ trace w' = trace w ∧
    length (deref r w) ≤ length (deref r w') ∧
    (∀ k, k < length (deref r w) → slot r k w' = slot r k w)) as Hadd.
  { intros l c t0 w'. subst w'.
    destruct (addSubscription_frame t0 l c w) as [Hc Htr].
    split; [by apply wf_addSubscription|].
    split; [by apply lookup_addSubscription_mono|].
    split; [done|]. split; [done|].
    rewrite (deref_addSubscription t0 l c w t r Hwf Hr).
    split; [rewrite length_app; lia|].
    intros k Hk. unfold slot.
    rewrite (deref_addSubscription t0 l c w t r Hwf Hr).
    by rewrite lookup_app_l. }
  assert (∀ s, let w' := removeSubscription s w in
    wf w' ∧ _subscriptionsForType w' !! t = Some r ∧
    _currentSubscription w' = _currentSubscription w ∧ trace w' = trace w ∧
    length (deref r w) ≤ length (deref r w') ∧
    (∀ k, k < length (deref r w) →
       slot r k w' =
       if decide ((t, k) ∈ [(eventType s, key s)]) then None else slot r k w))
    as Hrem.
  { intros s w'. subst w'.
    destruct (removeSubscription_frame s w) as (Hm & Hc & Htr).
    split; [by apply wf_removeSubscription|].
    split; [by rewrite Hm|]. split; [done|]. split; [done|].
    split; [by rewrite (length_deref_removeSubscription s w t r)|].
    intros k _. rewrite (slot_removeSubscription s w t r k Hwf Hr).
    destruct (decide ((t, k) = (eventType s, key s))) as [Heq|Hne].
    - rewrite decide_True; [done|]. rewrite Heq. apply list_elem_of_singleton. done.
    - rewrite decide_False; [done|]. by intros ?%list_elem_of_singleton. }
  destruct a as [t0 f c|t0 f c| | |s| |]; try done.
  - eexists; split; [done|]. unfold addListener.
    destruct (Hadd (UserFn f) c t0) as (?&?&?&?&?&Hs).
    split_and!; try done; intros k Hk; cbn [removal];
      case_decide as Hin; try (by apply elem_of_nil in Hin); by apply Hs.
  - eexists; split; [done|]. unfold once, addListener.
    destruct (Hadd (OnceWrapper f c) VUndefined t0) as (?&?&?&?&?&Hs).
    split_and!; try done; intros k Hk; cbn [removal];
      case_decide as Hin; try (by apply elem_of_nil in Hin); by apply Hs.
  - destruct Hcur as [s Hc]. cbn [step]. unfold removeCurrentListener.
    rewrite Hc. eexists; split; [done|]. destruct (Hrem s) as (?&?&?&?&?&Hs).
    split_and!; try done; congruence.
  - eexists; split; [done|]. destruct (Hrem s) as (?&?&?&?&?&Hs).
    split_and!; done.
Qed.

End Tame.

Section TameBodies.

Variable apply : Listener → Value → list Value → World → Outcome.
Variables (t : EventType) (r : nat).

Lemma run_tame body w :
  wf w → _subscriptionsForType w !! t = Some r → forallb tame body = true →
  is_Some (_currentSubscription w) →
  ∃ w', run apply body w = Returned w' ∧ wf w' ∧
    _subscriptionsForType w' !! t = Some r ∧
    _currentSubscription w' = _currentSubscription w ∧
    trace w' = trace w ∧
    length (deref r w) ≤ length (deref r w') ∧
    (∀ k, k < length (deref r w) →
       slot r k w' =
       if decide ((t, k) ∈ removals (_currentSubscription w) body) then None
       else slot r k w).
Proof.
  revert w. induction body as [|a body IH]; intros w Hwf Hr Hb Hcur.
  - exists w. split_and!; try done; intros k _;
      case_decide as Hin; try (by apply elem_of_nil in Hin); done.
  - cbn [forallb] in Hb. apply andb_prop in Hb as [Ha Hb].
    destruct (step_tame apply t r a w Hwf Hr Ha Hcur)
      as (w1 & Hstep & Hwf1 & Hr1 & Hc1 & Ht1 & Hl1 & Hs1).
    rewrite <- Hc1 in Hcur.
    destruct (IH w1 Hwf1 Hr1 Hb Hcur)
      as (w' & Hrun & Hwf' & Hr' & Hc' & Ht' & Hl' & Hs').
    exists w'. cbn [run]. rewrite Hstep. cbn [bind].
    split_and!; try done; try congruence; try lia.
    intros k Hk. rewrite Hs' by lia. rewrite Hs1 by done. rewrite Hc1.
    unfold removals. cbn [flat_map].
    repeat case_decide; try done;
      match goal with
      | H : ¬ (_ ∈ _ ++ _) |- _ => exfalso; apply H; apply elem_of_app; auto
      | H : _ ∈ _ ++ _ |- _ => exfalso; apply elem_of_app in H as [?|?]; auto
      end.
Qed.


(** Nothing is cleared by a body that only registers. *)
Lemma removals_adds_only cur body :
  forallb adds_only body = true → removals cur body = [].
Proof.
  induction body as [|a body IH]; [done|].
  cbn [forallb]. intros [Ha Hb]%andb_prop.
  unfold removals. cbn [flat_map]. fold (removals cur body).
  rewrite (IH Hb). by destruct a.
Qed.

Lemma adds_only_tame body :
  forallb adds_only body = true → forallb tame body = true.
Proof.
  induction body as [|a body IH]; [done|].
  cbn [forallb]. intros [Ha Hb]%andb_prop.
  rewrite (IH Hb). by destruct a.
Qed.

End TameBodies.

(** ** One listener invocation under tame code *)

Section TameCode.

Variable code : FnName → Value → list Value → list Action.
Hypothesis code_tame : ∀ f this args, forallb tame (code f this args) = true.
Variables (t : EventType) (r : nat).

Lemma dispatch_tame fuel s rest w :
  wf w → _subscriptionsForType w !! t = Some r → 2 ≤ fuel →
  ∃ w', __emitToSubscription (invoke code fuel) s rest
          (set_currentSubscription (Some s) w) = Returned w' ∧
    wf w' ∧ _subscriptionsForType w' !! t = Some r ∧
    _currentSubscription w' = Some s ∧
    trace w' = trace w ++ firing (drop 1 rest) s ∧
    length (deref r w) ≤ length (deref r w') ∧
    (∀ k, k < length (deref r w) →
       slot r k w' =
       if decide ((t, k) ∈ cleared code (drop 1 rest) s) then None
       else slot r k w).
Proof.
  intros Hwf Hr Hfuel.
  destruct fuel as [|[|fuel]]; [lia|lia|].
  unfold __emitToSubscription, cleared, firing, body_of, target, receiver.
  set (args := drop 1 rest).
  set (w0 := record (Dispatched s args) (set_currentSubscription (Some s) w)).
  assert (wf w0) as Hwf0 by (by apply wf_record, wf_set_currentSubscription).
  destruct (listener s) as [f|f c] eqn:Hl; cbn [invoke].
  - set (w1 := record (Entered f (context s) args) w0).
    destruct (run_tame (invoke code (S fuel)) t r (code f (context s) args) w1)
      as (w' & Hrun & Hwf' & Hr' & Hc' & Ht' & Hl' & Hs'); try done.
    { by apply wf_record. }
    exists w'. split_and!; try done.
    + rewrite Ht'. simpl. by rewrite <- app_assoc.
  - unfold removeCurrentListener. cbn [bind].
    change (_currentSubscription w0) with (Some s). cbn [bind invoke].
    set (w1 := record (Entered f c args) (removeSubscription s w0)).
    destruct (removeSubscription_frame s w0) as (Hm1 & Hc1 & Ht1).
    destruct (run_tame (invoke code fuel) t r (code f c args) w1)
      as (w' & Hrun & Hwf' & Hr' & Hc' & Ht' & Hl' & Hs'); try done.
    { by apply wf_record, wf_removeSubscription. }
    { subst w1. simpl. by rewrite Hm1. }
    { subst w1. simpl. by rewrite Hc1. }
    assert (deref r w1 = deref r (removeSubscription s w0)) as Hd1 by done.
    assert (length (deref r w1) = length (deref r w)) as Hlen.
    { rewrite Hd1. by rewrite (length_deref_removeSubscription s w0 t r). }
    exists w'. split_and!; try done.
    + rewrite Hc'. subst w1. simpl. by rewrite Hc1.
    + rewrite Ht'. subst w1. simpl. rewrite Ht1. simpl. by rewrite <- app_assoc.
    + lia.
    + intros k Hk. rewrite Hs' by lia.
      assert (slot r k w1 = slot r k (removeSubscription s w0)) as -> by done.
      rewrite (slot_removeSubscription s w0 t r k Hwf0) by done.
      assert (_currentSubscription w1 = Some s) as ->
        by (subst w1; simpl; by rewrite Hc1).
      change (slot r k w0) with (slot r k w).
      destruct (decide ((t, k) = (eventType s, key s))) as [E|E].
      * rewrite (decide_True (P := _ ∈ _ ++ _)); [by case_decide|].
        apply elem_of_app. left. rewrite E. by apply list_elem_of_singleton.
      * destruct (decide ((t, k) ∈ removals (Some s) (code f c args))) as [R|R].
        -- rewrite decide_True; [done|]. apply elem_of_app; by right.
        -- rewrite decide_False; [done|].
           intros [H|H]%elem_of_app; [by apply list_elem_of_singleton in H|done].
Qed.

End TameCode.

(** ** The dispatch loop under tame code *)

Section TameLoop.

Variable code : FnName → Value → list Value → list Action.
Hypothesis code_tame : ∀ f this args, forallb tame (code f this args) = true.
Variables (t : EventType) (r : nat).

(** Reading slots that were cleared in the meantime amounts to
    starting the cycle with those slots already gone. *)
Lemma survivors_cleared args (keys : list nat)
    (sl sl' : nat → option EmitterSubscription) g gone :
  (∀ k s, sl k = Some s → eventType s = t ∧ key s = k) →
  (∀ k, k ∈ keys → sl' k = if decide ((t, k) ∈ g) then None else sl k) →
  survivors code args (omap sl' keys) gone =
  survivors code args (omap sl keys) (g ++ gone).
Proof.
  intros Hsl. revert gone. induction keys as [|k keys IH]; intros gone Hsl'; [done|].
  csimpl. rewrite (Hsl' k) by (by left).
  assert (∀ k0, k0 ∈ keys →
    sl' k0 = if decide ((t, k0) ∈ g) then None else sl k0) as Hsl''
    by (intros k0 Hk0; apply Hsl'; by right).
  destruct (sl k) as [s|] eqn:Hk.
  - destruct (Hsl k s Hk) as [Ht Hkey].
    cbn [survivors]. rewrite Ht, Hkey.
    destruct (decide ((t, k) ∈ g)) as [Hg|Hg].
    + rewrite decide_True by (apply elem_of_app; by left). by apply IH.
    + cbn [survivors]. rewrite Ht, Hkey.
      destruct (decide ((t, k) ∈ gone)) as [Hgone|Hgone].
      * rewrite decide_True by (apply elem_of_app; by right). by apply IH.
      * rewrite decide_False by (by intros [?|?]%elem_of_app).
        f_equal. rewrite <- app_assoc. by apply IH.
  - case_decide; by apply IH.
Qed.

Lemma emit_loop_tame fuel rest keys w :
  wf w → _subscriptionsForType w !! t = Some r → 2 ≤ fuel →
  (∀ k, k ∈ keys → k < length (deref r w)) →
  let fired := survivors code (drop 1 rest) (omap (λ k, slot r k w) keys) [] in
  ∃ w', emit_loop (invoke code fuel) r rest keys w = Returned w' ∧
    wf w' ∧ _subscriptionsForType w' !! t = Some r ∧
    trace w' = trace w ++ flat_map (firing (drop 1 rest)) fired ∧
    length (deref r w) ≤ length (deref r w') ∧
    (∀ k, k < length (deref r w) →
       slot r k w' =
       if decide ((t, k) ∈ flat_map (cleared code (drop 1 rest)) fired) then None
       else slot r k w).
Proof.
  intros Hwf Hr Hfuel. revert w Hwf Hr.
  induction keys as [|k keys IH]; intros w Hwf Hr Hrange fired.
  - exists w. subst fired. cbn. rewrite app_nil_r.
    split_and!; try done; intros k _; by case_decide.
  - assert (∀ k0, k0 ∈ keys → k0 < length (deref r w)) as Hrange'
      by (intros k0 Hk0; apply Hrange; by right).
    cbn [emit_loop]. subst fired. csimpl.
    destruct (slot r k w) as [s|] eqn:Hk.
    + destruct (dispatch_tame code code_tame t r fuel s rest w Hwf Hr Hfuel)
        as (w1 & Hd & Hwf1 & Hr1 & Hc1 & Ht1 & Hl1 & Hs1).
      rewrite Hd. cbn [bind].
      destruct (IH w1 Hwf1 Hr1) as (w' & Hloop & Hwf' & Hr' & Ht' & Hl' & Hs').
      { intros k0 Hk0. specialize (Hrange' k0 Hk0). lia. }
      exists w'. cbn [survivors].
      rewrite decide_False by (by intros ?%elem_of_nil). cbn [app].
      assert (survivors code (drop 1 rest) (omap (λ k, slot r k w1) keys) [] =
              survivors code (drop 1 rest) (omap (λ k, slot r k w) keys)
                (cleared code (drop 1 rest) s)) as Heq.
      { rewrite (survivors_cleared (drop 1 rest) keys (λ k, slot r k w)
                   (λ k, slot r k w1) (cleared code (drop 1 rest) s) []).
        - by rewrite app_nil_r.
        - intros k0 s0 Hs0. by apply (wf_slot w Hwf t r).
        - intros k0 Hk0. apply Hs1. by apply Hrange'. }
      rewrite Heq in *. split_and!; try done.
      * rewrite Ht', Ht1. cbn [flat_map]. by rewrite <- !app_assoc.
      * lia.
      * intros k0 Hk0. rewrite Hs' by lia. rewrite Hs1 by done.
        cbn [flat_map].
        repeat case_decide; try done;
          match goal with
          | H : ¬ (_ ∈ _ ++ _) |- _ => exfalso; apply H; apply elem_of_app; auto
          | H : _ ∈ _ ++ _ |- _ => exfalso; apply elem_of_app in H as [?|?]; auto
          end.
    + destruct (IH w Hwf Hr Hrange') as (w' & Hloop & Hrest).
      exists w'. done.
Qed.

End TameLoop.

(** ** One emission under tame code *)

Lemma dispatched_firing args fired :
  dispatched (flat_map (firing args) fired) = fired.
Proof.
  induction fired as [|s fired IH]; [done|].
  unfold dispatched in *. cbn. by rewrite IH.
Qed.

Lemma dispatched_app tr1 tr2 :
  dispatched (tr1 ++ tr2) = dispatched tr1 ++ dispatched tr2.
Proof. unfold dispatched. apply omap_app. Qed.

(** The listeners are the filled slots at the snapshotted keys. *)
Lemma listeners_keys t r w :
  _subscriptionsForType w !! t = Some r →
  listeners t w = omap (λ k, slot r k w) (Object_keys (deref r w)).
Proof.
  intros Hr. unfold listeners, getSubscriptionsForType. rewrite Hr.
  unfold Object_keys. rewrite (filter_true_keys_from _ 0).
  apply list_omap_ext. apply Forall2_same_length_lookup_2; [done|].
  intros j k k' Hk Hk'. simplify_eq. by rewrite Nat.sub_0_r.
Qed.

Section TameEmit.

Variable code : FnName → Value → list Value → list Action.
Hypothesis code_tame : ∀ f this args, forallb tame (code f this args) = true.

Lemma emit_tame fuel t args w :
  wf w → 2 ≤ fuel →
  let fired := survivors code args (listeners t w) [] in
  ∃ w', emit (invoke code fuel) t args w = Returned w' ∧
    wf w' ∧
    trace w' = trace w ++ flat_map (firing args) fired ∧
    (is_Some (_subscriptionsForType w !! t) → _currentSubscription w' = None) ∧
    (_subscriptionsForType w !! t = None → w' = w) ∧
    (∀ r, _subscriptionsForType w !! t = Some r →
       _subscriptionsForType w' !! t = Some r ∧
       length (deref r w) ≤ length (deref r w') ∧
       (∀ k, k < length (deref r w) →
          slot r k w' =
          if decide ((t, k) ∈ flat_map (cleared code args) fired) then None
          else slot r k w)).
Proof.
  intros Hwf Hfuel fired. unfold emit, getSubscriptionsForType.
  destruct (_subscriptionsForType w !! t) as [r|] eqn:Hr.
  - destruct (emit_loop_tame code code_tame t r fuel (VString t :: args)
                (Object_keys (deref r w)) w Hwf Hr Hfuel)
      as (w' & Hloop & Hwf' & Hr' & Ht' & Hl' & Hs').
    { intros k (s & Hk)%elem_of_Object_keys. by eapply lookup_lt_Some. }
    cbn [drop] in *. rewrite <- (listeners_keys t r w Hr) in *.
    rewrite Hloop. cbn [bind].
    exists (set_currentSubscription None w').
    split_and!; try done.
    + by apply wf_set_currentSubscription.
    + intros r0 ?. by simplify_eq.
  - exists w. subst fired. unfold listeners, getSubscriptionsForType.
    rewrite Hr. cbn. rewrite app_nil_r. split_and!; try done;
      by intros [? ?].
Qed.

End TameEmit.

(** ** The cycle in the words of the specification *)

Section Survivors.

Variable code : FnName → Value → list Value → list Action.
Variable args : list Value.

Lemma survivors_sublist snapshot gone :
  survivors code args snapshot gone `sublist_of` snapshot.
Proof.
  revert gone. induction snapshot as [|s snapshot IH]; intros gone; [done|].
  cbn [survivors]. case_decide.
  - apply sublist_cons. apply IH.
  - apply sublist_skip. apply IH.
Qed.

Lemma survivors_elem_of snapshot gone s :
  s ∈ survivors code args snapshot gone → s ∈ snapshot.
Proof. intros Hs. eapply elem_of_sublist; [done|]. apply survivors_sublist. Qed.

(** A snapshotted listener fires exactly when its slot was filled at
    the start of the cycle and no listener that fired before it has
    cleared it. *)
Lemma survivors_spec snapshot gone s :
  StronglySorted earlier snapshot →
  s ∈ survivors code args snapshot gone ↔
  s ∈ snapshot ∧ ((eventType s, key s) ∉ gone) ∧
  (∀ s1, s1 ∈ survivors code args snapshot gone → key s1 < key s →
         (eventType s, key s) ∉ cleared code args s1).
Proof.
  revert gone. induction snapshot as [|a snapshot IH]; intros gone Hsorted.
  - cbn. split; [by intros ?%elem_of_nil | by intros [?%elem_of_nil _]].
  - apply StronglySorted_inv in Hsorted as [Hsorted Hall].
    rewrite Forall_forall in Hall. unfold earlier in Hall.
    cbn [survivors]. destruct (decide ((eventType a, key a) ∈ gone)) as [Hgone|Hgone].
    + rewrite (IH gone Hsorted). rewrite elem_of_cons. split.
      * intros (? & ? & ?). by split_and!; [right| |].
      * intros ([->|?] & ? & ?); [done|]. by split_and!.
    + rewrite !elem_of_cons. split.
      * intros [->|Hs].
        -- split_and!; [by left|done|].
           intros s1 [->|Hs1]%elem_of_cons Hlt; [lia|].
           apply survivors_elem_of, Hall in Hs1. lia.
        -- apply (IH _ Hsorted) in Hs as (Hin & Hng & Hcl).
           split_and!; [by right|by intros ?; apply Hng, elem_of_app; left|].
           intros s1 [->|Hs1]%elem_of_cons Hlt.
           ++ intros ?. apply Hng, elem_of_app. by right.
           ++ by apply Hcl.
      * intros ([->|Hin] & Hng & Hcl); [by left|right].
        apply (IH _ Hsorted). split_and!; [done| |].
        -- intros [?|Hc]%elem_of_app; [done|].
           apply (Hcl a); [by left|by apply Hall|done].
        -- intros s1 Hs1 Hlt. apply Hcl; [by right|done].
Qed.

End Survivors.

(** ** Listeners of a well-formed world *)

Lemma elem_of_listeners_wf t w s :
  wf w →
  s ∈ listeners t w ↔
  ∃ r, _subscriptionsForType w !! t = Some r ∧ slot r (key s) w = Some s.
Proof.
  intros Hwf. rewrite elem_of_listeners. split.
  - intros (r & k & Hr & Hk). exists r. split; [done|].
    destruct (wf_slot w Hwf t r k s Hr Hk) as [_ ->]. done.
  - intros (r & Hr & Hk). by exists r, (key s).
Qed.

Lemma listeners_eventType t w s : wf w → s ∈ listeners t w → eventType s = t.
Proof.
  intros Hwf (r & k & Hr & Hk)%elem_of_listeners.
  by destruct (wf_slot w Hwf t r k s Hr Hk).
Qed.

Lemma omap_sorted (f : nat → option EmitterSubscription) keys :
  StronglySorted lt keys → (∀ k s, f k = Some s → key s = k) →
  StronglySorted earlier (omap f keys).
Proof.
  intros Hsorted Hf. induction Hsorted as [|k keys Hsorted IH Hall]; csimpl.
  - constructor.
  - destruct (f k) as [s|] eqn:Hk; [|done].
    constructor; [done|]. apply Forall_forall.
    intros s' (k' & Hk' & Hs')%list_elem_of_omap.
    rewrite Forall_forall in Hall. specialize (Hall k' Hk').
    unfold earlier. rewrite (Hf k s Hk), (Hf k' s' Hs'). done.
Qed.

Lemma listeners_sorted t w : wf w → StronglySorted earlier (listeners t w).
Proof.
  intros Hwf. destruct (_subscriptionsForType w !! t) as [r|] eqn:Hr.
  - rewrite (listeners_keys t r w Hr). apply omap_sorted.
    + apply keys_from_sorted.
    + intros k s Hk. by destruct (wf_slot w Hwf t r k s Hr Hk).
  - unfold listeners, getSubscriptionsForType. rewrite Hr. constructor.
Qed.

(** A slot cleared during a tame emission is not listed afterwards. *)
Lemma cleared_not_listed code fuel t args w w' s :
  (∀ f this a, forallb tame (code f this a) = true) → wf w → 2 ≤ fuel →
  emit (invoke code fuel) t args w = Returned w' →
  s ∈ listeners t w →
  (t, key s) ∈ flat_map (cleared code args) (survivors code args (listeners t w) []) →
  s ∉ listeners t w'.
Proof.
  intros Htame Hwf Hfuel Hemit Hs Hc.
  destruct (emit_tame code Htame fuel t args w Hwf Hfuel)
    as (w1 & Hemit1 & Hwf1 & _ & _ & _ & Hslots).
  rewrite Hemit in Hemit1. simplify_eq.
  apply (elem_of_listeners_wf t w s Hwf) in Hs as (r & Hr & Hk).
  destruct (Hslots r Hr) as (Hr1 & _ & Hs1).
  intros (r' & Hr' & Hk')%(elem_of_listeners_wf t w1 s Hwf1).
  simplify_eq. rewrite Hs1 in Hk' by (by eapply slot_lt).
  by rewrite decide_True in Hk'.
Qed.

(** ** Removal during an emission *)


Lemma wf_two : wf Samples.two.
Proof. apply wf_addSubscription, wf_addSubscription, wf_constructor. Qed.

(** ** Listeners that only register *)

Section AddsOnly.

Variable code : FnName → Value → list Value → list Action.
Hypothesis code_adds : ∀ f this args, forallb adds_only (code f this args) = true.

Lemma code_adds_tame f this args : forallb tame (code f this args) = true.
Proof. apply adds_only_tame, code_adds. Qed.

(** Such a listener clears at most its own slot, through [once]. *)
Lemma cleared_adds_only args s p :
  p ∈ cleared code args s →
  p = (eventType s, key s) ∧ ∃ f c, listener s = OnceWrapper f c.
Proof.
  unfold cleared, body_of. rewrite removals_adds_only by apply code_adds.
  rewrite app_nil_r. destruct (listener s) as [f|f c].
  - by intros ?%elem_of_nil.
  - intros ->%list_elem_of_singleton. split; [done|]. by exists f, c.
Qed.

(** Every snapshotted listener fires. *)
Lemma survivors_adds_only args snapshot gone :
  StronglySorted earlier snapshot →
  (∀ s, s ∈ snapshot → (eventType s, key s) ∉ gone) →
  survivors code args snapshot gone = snapshot.
Proof.
  revert gone. induction snapshot as [|a snapshot IH]; intros gone Hsorted Hgone; [done|].
  apply StronglySorted_inv in Hsorted as [Hsorted Hall].
  rewrite Forall_forall in Hall. unfold earlier in Hall.
  cbn [survivors]. rewrite decide_False by (apply Hgone; by left).
  f_equal. apply IH; [done|].
  intros s Hs [Hin|Hin]%elem_of_app.
  - by apply (Hgone s); [right|].
  - apply cleared_adds_only in Hin as [Heq _].
    specialize (Hall s Hs). simplify_eq. lia.
Qed.

Variables (t : EventType) (r : nat).

(** A registration made by a body is in the array when the body ends. *)
Lemma run_adds_only apply body w w' a l c :
  wf w → _subscriptionsForType w !! t = Some r →
  forallb adds_only body = true → is_Some (_currentSubscription w) →
  run apply body w = Returned w' →
  a ∈ body → registers a = Some (t, l, c) →
  ∃ k, length (deref r w) ≤ k ∧ slot r k w' = Some (mkSubscription l c t k).
Proof.
  revert w. induction body as [|a0 body IH]; intros w Hwf Hr Hb Hcur Hrun Ha Hreg.
  - by apply elem_of_nil in Ha.
  - cbn [forallb] in Hb. apply andb_prop in Hb as [Ha0 Hb].
    assert (tame a0 = true) as Ht0 by (by destruct a0).
    destruct (step_tame apply t r a0 w Hwf Hr Ht0 Hcur)
      as (w1 & Hstep & Hwf1 & Hr1 & Hc1 & Ht1 & Hl1 & Hs1).
    cbn [run] in Hrun. rewrite Hstep in Hrun. cbn [bind] in Hrun.
    assert (is_Some (_currentSubscription w1)) as Hcur1 by (by rewrite Hc1).
    apply elem_of_cons in Ha as [->|Ha].
    + destruct (run_tame apply t r body w1 Hwf1 Hr1 (adds_only_tame body Hb) Hcur1)
        as (w2 & Hrun2 & _ & _ & _ & _ & _ & Hs2).
      rewrite Hrun in Hrun2. simplify_eq.
      exists (length (deref r w)). split; [done|].
      assert (w1 = (addSubscription t l c w).2 ∧
              slot r (length (deref r w)) w1 =
              Some (mkSubscription l c t (length (deref r w)))) as [Hw1 Hnew].
      { assert (w1 = (addSubscription t l c w).2) as ->
          by (destruct a0; simplify_eq/=; done).
        split; [done|]. apply slot_Some.
        rewrite (deref_addSubscription t l c w t r Hwf Hr).
        rewrite decide_True by done.
        rewrite lookup_app_r, Nat.sub_diag by done.
        rewrite addSubscription_fst, Hr. done. }
      rewrite Hs2.
      * rewrite removals_adds_only by done.
        by rewrite decide_False by (by intros ?%elem_of_nil).
      * by eapply slot_lt.
    + destruct (IH w1 Hwf1 Hr1 Hb Hcur1 Hrun Ha Hreg) as (k & Hk & Hslot).
      exists k. split; [lia|done].
Qed.

End AddsOnly.

Section AddsOnlyLoop.

Variable code : FnName → Value → list Value → list Action.
Hypothesis code_adds : ∀ f this args, forallb adds_only (code f this args) = true.
Variables (t : EventType) (r : nat).

Lemma dispatch_adds_only fuel s rest w w1 a l c :
  wf w → _subscriptionsForType w !! t = Some r →
  __emitToSubscription (invoke code fuel) s rest
    (set_currentSubscription (Some s) w) = Returned w1 →
  a ∈ body_of code s (drop 1 rest) → registers a = Some (t, l, c) →
  ∃ k, length (deref r w) ≤ k ∧ slot r k w1 = Some (mkSubscription l c t k).
Proof.
  intros Hwf Hr Hd Ha Hreg.
  unfold __emitToSubscription, body_of, target, receiver in *.
  set (args := drop 1 rest) in *.
  set (w0 := record (Dispatched s args) (set_currentSubscription (Some s) w)) in *.
  assert (wf w0) as Hwf0 by (by apply wf_record, wf_set_currentSubscription).
  destruct fuel as [|fuel]; [done|]. cbn [invoke] in Hd.
  destruct (listener s) as [f|f c0] eqn:Hl.
  - set (w2 := record (Entered f (context s) args) w0) in *.
    apply (run_adds_only t r (invoke code fuel) (code f (context s) args) w2 w1 a l c);
      try done.
    by apply wf_record.
  - unfold removeCurrentListener in Hd.
    change (_currentSubscription w0) with (Some s) in Hd. cbn [bind] in Hd.
    destruct fuel as [|fuel]; [done|]. cbn [invoke] in Hd.
    destruct (removeSubscription_frame s w0) as (Hm1 & Hc1 & Ht1).
    set (w2 := record (Entered f c0 args) (removeSubscription s w0)) in *.
    assert (length (deref r w2) = length (deref r w)) as Hlen.
    { change (deref r w2) with (deref r (removeSubscription s w0)).
      by rewrite (length_deref_removeSubscription s w0 t r). }
    rewrite <- Hlen.
    apply (run_adds_only t r (invoke code fuel) (code f c0 args) w2 w1 a l c);
      try done.
    + by apply wf_record, wf_removeSubscription.
    + subst w2. simpl. by rewrite Hm1.
    + subst w2. simpl. by rewrite Hc1.
Qed.

(** What a listener registers while it fires is still in the array when
    the loop ends: the listeners after it clear nothing but themselves. *)
Lemma emit_loop_adds_only fuel rest keys w w' k0 s0 a l c :
  wf w → _subscriptionsForType w !! t = Some r → 2 ≤ fuel →
  (∀ k, k ∈ keys → k < length (deref r w)) →
  emit_loop (invoke code fuel) r rest keys w = Returned w' →
  k0 ∈ keys → slot r k0 w = Some s0 →
  a ∈ body_of code s0 (drop 1 rest) → registers a = Some (t, l, c) →
  ∃ k, length (deref r w) ≤ k ∧ slot r k w' = Some (mkSubscription l c t k).
Proof.
  intros Hwf Hr Hfuel. revert w Hwf Hr.
  induction keys as [|k keys IH]; intros w Hwf Hr Hrange Hloop Hk0 Hs0 Ha Hreg.
  - by apply elem_of_nil in Hk0.
  - assert (∀ k1, k1 ∈ keys → k1 < length (deref r w)) as Hrange'
      by (intros k1 Hk1; apply Hrange; by right).
    cbn [emit_loop] in Hloop.
    destruct (slot r k w) as [s|] eqn:Hk.
    + destruct (dispatch_tame code (code_adds_tame code code_adds) t r fuel s rest w
                  Hwf Hr Hfuel)
        as (w1 & Hd & Hwf1 & Hr1 & Hc1 & Ht1 & Hl1 & Hs1).
      rewrite Hd in Hloop. cbn [bind] in Hloop.
      assert (∀ k1, k1 ∈ keys → k1 < length (deref r w1)) as Hrange1
        by (intros k1 Hk1; specialize (Hrange' k1 Hk1); lia).
      destruct (decide (k0 = k)) as [->|Hne].
      * assert (s0 = s) as -> by congruence.
        destruct (dispatch_adds_only fuel s rest w w1 a l c Hwf Hr Hd Ha Hreg)
          as (kn & Hkn & Hnew).
        exists kn. split; [done|].
        destruct (emit_loop_tame code (code_adds_tame code code_adds) t r fuel rest
                    keys w1 Hwf1 Hr1 Hfuel Hrange1)
          as (w2 & Hloop2 & _ & _ & _ & _ & Hs2).
        rewrite Hloop in Hloop2. simplify_eq.
        rewrite Hs2 by (by eapply slot_lt). rewrite decide_False; [done|].
        intros (s1 & Hs1in & Hcl)%list_elem_of_In%in_flat_map.
        apply list_elem_of_In in Hcl.
        apply (cleared_adds_only code code_adds) in Hcl as [Heq _].
        apply list_elem_of_In, survivors_elem_of, list_elem_of_omap in Hs1in
          as (k1 & Hk1 & Hslot1).
        destruct (wf_slot w1 Hwf1 t r k1 s1 Hr1 Hslot1) as [_ Hkey].
        specialize (Hrange' k1 Hk1). simplify_eq. lia.
      * apply elem_of_cons in Hk0 as [?|Hk0]; [done|].
        destruct (IH w1 Hwf1 Hr1 Hrange1 Hloop Hk0) as (kn & Hkn & Hnew); try done.
        -- rewrite Hs1 by (by eapply slot_lt). rewrite decide_False; [done|].
           intros [Heq _]%(cleared_adds_only code code_adds).
           destruct (wf_slot w Hwf t r k s Hr Hk) as [_ Hkey]. simplify_eq.
        -- exists kn. split; [lia|done].
    + apply elem_of_cons in Hk0 as [->|Hk0]; [congruence|].
      by apply (IH w Hwf Hr Hrange' Hloop Hk0).
Qed.

End AddsOnlyLoop.

(** One emission under listeners that only register: every listener
    snapshotted at the start fires, in order, and what they register for
    the emitted type is listed afterwards without having fired. *)
Lemma emit_adds_only code fuel t args w :
  (∀ f this a, forallb adds_only (code f this a) = true) → wf w → 2 ≤ fuel →
  ∃ w', emit (invoke code fuel) t args w = Returned w' ∧ wf w' ∧
    trace w' = trace w ++ flat_map (firing args) (listeners t w) ∧
    (∀ s0 a l c, s0 ∈ listeners t w → a ∈ body_of code s0 args →
       registers a = Some (t, l, c) →
       ∃ s, listener s = l ∧ context s = c ∧ eventType s = t ∧
            s ∈ listeners t w' ∧ s ∉ listeners t w).
Proof.
  intros Hadds Hwf Hfuel.
  pose proof (code_adds_tame code Hadds) as Htame.
  destruct (emit_tame code Htame fuel t args w Hwf Hfuel)
    as (w' & Hemit & Hwf' & Htr & _ & _ & Hslots).
  rewrite (survivors_adds_only code Hadds) in Htr;
    [|by apply listeners_sorted|by intros ? _ ?%elem_of_nil].
  exists w'. split_and!; try done.
  intros s0 a l c Hs0 Ha Hreg.
  apply (elem_of_listeners_wf t w s0 Hwf) in Hs0 as (r & Hr & Hk0).
  destruct (Hslots r Hr) as (Hr' & _ & _).
  unfold emit, getSubscriptionsForType in Hemit. rewrite Hr in Hemit.
  destruct (emit_loop (invoke code fuel) r (VString t :: args)
              (Object_keys (deref r w)) w) as [wl| |] eqn:Hloop; try done.
  cbn [bind] in Hemit. simplify_eq.
  destruct (emit_loop_adds_only code Hadds t r fuel (VString t :: args)
              (Object_keys (deref r w)) w wl (key s0) s0 a l c)
    as (k & Hk & Hnew); try done.
  { intros k (s & Hk)%elem_of_Object_keys. by eapply lookup_lt_Some. }
  { apply elem_of_Object_keys. exists s0. by apply slot_Some. }
  exists (mkSubscription l c t k). split_and!; try done.
  - apply elem_of_listeners. by exists r, k.
  - intros (r0 & Hr0 & Hin)%(elem_of_listeners_wf t w _ Hwf).
    simplify_eq. apply slot_lt in Hin. simpl in Hin. lia.
Qed.

Lemma adder_adds_only f this a : forallb adds_only (Samples.adder f this a) = true.
Proof. by destruct f as [|[|f]]. Qed.

(** ** Registration order *)

Lemma listeners_addSubscription t l c w :
  wf w →
  listeners t (addSubscription t l c w).2 =
  listeners t w ++ [(addSubscription t l c w).1].
Proof.
  intros Hwf. unfold listeners at 1 2, getSubscriptionsForType.
  destruct (_subscriptionsForType w !! t) as [r|] eqn:Hr.
  - rewrite (lookup_addSubscription_mono t l c w t r Hr).
    rewrite (deref_addSubscription t l c w t r Hwf Hr).
    rewrite decide_True by done. unfold filter_true. by rewrite omap_app.
  - unfold addSubscription. rewrite Hr. simpl.
    rewrite lookup_insert_eq. unfold deref. simpl.
    rewrite lookup_app_r, Nat.sub_diag by done. done.
Qed.

Lemma listeners_addSubscription_ne t t' l c w :
  wf w → t' ≠ t →
  listeners t' (addSubscription t l c w).2 = listeners t' w.
Proof.
  intros Hwf Hne. unfold listeners, getSubscriptionsForType.
  destruct (_subscriptionsForType w !! t') as [r'|] eqn:Hr'.
  - rewrite (lookup_addSubscription_mono t l c w t' r' Hr').
    rewrite (deref_addSubscription t l c w t' r' Hwf Hr').
    rewrite decide_False by done. by rewrite app_nil_r.
  - unfold addSubscription.
    destruct (_subscriptionsForType w !! t) as [r|] eqn:Hr; simpl.
    + by rewrite Hr'.
    + rewrite lookup_insert_ne by done. by rewrite Hr'.
Qed.

Lemma listeners_NoDup t w : wf w → NoDup (listeners t w).
Proof.
  intros Hwf. pose proof (listeners_sorted t w Hwf) as Hsorted.
  induction Hsorted as [|s l Hsorted IH Hall]; constructor; [|done].
  intros Hin. rewrite Forall_forall in Hall.
  specialize (Hall s Hin). unfold earlier in Hall. lia.
Qed.

(** A registration is new: it was not listed before. *)
Lemma addSubscription_fresh t l c w :
  wf w → (addSubscription t l c w).1 ∉ listeners t w.
Proof.
  intros Hwf Hin.
  pose proof (listeners_NoDup t (addSubscription t l c w).2
                (wf_addSubscription t l c w Hwf)) as Hnd.
  rewrite (listeners_addSubscription t l c w Hwf) in Hnd.
  apply NoDup_app in Hnd as (_ & Hdisj & _).
  apply (Hdisj _ Hin). by left.
Qed.

(** ** A cleared slot stays cleared *)

Lemma emits_never_refire code fuel t r k s argss w :
  (∀ f this a, forallb tame (code f this a) = true) → wf w → 2 ≤ fuel →
  _subscriptionsForType w !! t = Some r →
  k < length (deref r w) → slot r k w = None →
  eventType s = t → key s = k →
  ∃ w' later,
    api_run code fuel (CallEmit t <$> argss) w = Returned w' ∧
    dispatched (trace w') = dispatched (trace w) ++ later ∧
    s ∉ later.
Proof.
  intros Htame Hwf Hfuel. revert w Hwf.
  induction argss as [|args argss IH]; intros w Hwf Hr Hk Hnone Ht Hkey.
  - exists w, []. split_and!; [done|by rewrite app_nil_r|by intros ?%elem_of_nil].
  - destruct (emit_tame code Htame fuel t args w Hwf Hfuel)
      as (w1 & Hemit & Hwf1 & Htr & _ & _ & Hslots).
    destruct (Hslots r Hr) as (Hr1 & Hl1 & Hs1).
    assert (slot r k w1 = None) as Hnone1
      by (rewrite Hs1 by done; rewrite Hnone; by case_decide).
    assert (k < length (deref r w1)) as Hk1 by lia.
    destruct (IH w1 Hwf1 Hr1 Hk1 Hnone1 Ht Hkey) as (w' & later & Hrun & Hd & Hnot).
    exists w', (survivors code args (listeners t w) [] ++ later).
    split_and!.
    + unfold api_run in *. cbn [fmap list_fmap run step].
      change (list_fmap _ _ ?f ?l) with (f <$> l).
      rewrite Hemit. cbn [bind]. done.
    + rewrite Hd, Htr, dispatched_app, dispatched_firing. by rewrite app_assoc.
    + intros [Hin|Hin]%elem_of_app; [|done].
      apply survivors_elem_of, (elem_of_listeners_wf t w s Hwf) in Hin
        as (r0 & Hr0 & Hs0). congruence.
Qed.

(** ** Cancelled subscriptions are not listed *)

Lemma removeSubscription_not_listed s t w :
  wf w → s ∉ listeners t (removeSubscription s w).
Proof.
  intros Hwf Hin.
  pose proof (wf_removeSubscription s w Hwf) as Hwf'.
  pose proof (listeners_eventType _ _ _ Hwf' Hin) as Ht.
  apply (elem_of_listeners_wf _ _ _ Hwf') in Hin as (r & Hr & Hk).
  destruct (removeSubscription_frame s w) as (Hm & _ & _). rewrite Hm in Hr.
  rewrite (slot_removeSubscription s w t r (key s) Hwf Hr) in Hk.
  rewrite decide_True in Hk by (by rewrite Ht). done.
Qed.

(** ** once *)

Lemma quiet_tame f this a : forallb tame (Samples.quiet f this a) = true.
Proof. done. Qed.

Lemma wf_one : wf Samples.one.
Proof. apply wf_addSubscription, wf_constructor. Qed.

Lemma listeners_constructor t : listeners t constructor = [].
Proof.
  unfold listeners, getSubscriptionsForType, constructor. simpl.
  by rewrite lookup_empty.
Qed.

(** ** Which listeners an emission invokes *)


(** ** What a listener is applied to *)

(** C7, as stated, fails: the listener of the sample is applied to the
    emitted data alone; the event type is not among its arguments. *)
Lemma listener_is_not_passed_the_event_type :
  ∃ w' s,
    api Samples.quiet 2 (CallEmit "type1" [Samples.data]) Samples.one = Returned w' ∧
    trace w' = [Dispatched s [Samples.data]; Entered 0 Samples.ctx [Samples.data]] ∧
    Entered 0 Samples.ctx [VString "type1"; Samples.data] ∉ trace w'.
Proof.
  do 2 eexists. split; [vm_compute; reflexivity|]. split; [vm_compute; reflexivity|].
  vm_compute. intros H.
  repeat (apply elem_of_cons in H as [H|H]; [done|]).
  by apply elem_of_nil in H.
Qed.

(** ** listeners *)

Lemma filter_all {A} (P : A → Prop) `{∀ x, Decision (P x)} (l : list A) :
  (∀ x, x ∈ l → P x) → filter P l = l.
Proof.
  induction l as [|x l IH]; intros Hall; [done|].
  rewrite filter_cons_True by (apply Hall; by left).
  f_equal. apply IH. intros y Hy. apply Hall. by right.
Qed.

Lemma filter_true_insert_None (a : Slots) i k s :
  (∀ j s', a !! j = Some (Some s') → key s' = i + j) →
  a !! k = Some (Some s) →
  filter_true (<[k := None]> a) = filter (λ x, x ≠ s) (filter_true a).
Proof.
  unfold filter_true. revert i k.
  induction a as [|o a IH]; intros i k Hkeys Hk; [done|].
  assert (∀ j s', a !! j = Some (Some s') → key s' = S i + j) as Hkeys'.
  { intros j s' Hj. rewrite (Hkeys (S j) s' Hj). lia. }
  destruct k as [|k]; simpl in Hk.
  - simplify_eq. csimpl. rewrite filter_cons_False by (intros H; by apply H).
    symmetry. apply filter_all. intros x (o & Ho & Hx)%list_elem_of_omap.
    simpl in Hx. subst o. apply list_elem_of_lookup in Ho as [j Hj].
    intros ->. pose proof (Hkeys 0 s eq_refl). pose proof (Hkeys' j s Hj). lia.
  - destruct o as [s0|]; csimpl.
    + assert (s0 ≠ s) as Hne.
      { intros ->. pose proof (Hkeys 0 s eq_refl). pose proof (Hkeys' k s Hk). lia. }
      rewrite filter_cons_True by done. f_equal. by apply (IH (S i)).
    + by apply (IH (S i)).
Qed.

Lemma listeners_removeSubscription s t w :
  wf w → s ∈ listeners t w →
  listeners t (removeSubscription s w) = filter (λ x, x ≠ s) (listeners t w).
Proof.
  intros Hwf Hs.
  pose proof (listeners_eventType t w s Hwf Hs) as Ht.
  apply (elem_of_listeners_wf t w s Hwf) in Hs as (r & Hr & Hk).
  destruct (removeSubscription_frame s w) as (Hm & _ & _).
  unfold listeners, getSubscriptionsForType. rewrite Hm, Hr.
  rewrite (deref_removeSubscription s w t r Hwf Hr).
  rewrite decide_True by done.
  apply (filter_true_insert_None _ 0).
  - intros j s' Hj%slot_Some. by destruct (wf_slot w Hwf t r j s' Hr Hj).
  - by apply slot_Some.
Qed.

(** C8: [listeners] lists registrations in registration order (a new
    registration goes last, the slot keys ascend), does not list a
    cancelled subscription and keeps the others in order, and is empty
    for a type that has no bucket, whose slots are all cleared, or whose
    bucket was dropped. *)
Theorem listeners_in_order_without_removed t w s l c :
  wf w →
  listeners t (addListener t l c w).2 = listeners t w ++ [(addListener t l c w).1] ∧
  (∀ t', t' ≠ t → listeners t' (addListener t l c w).2 = listeners t' w) ∧
  StronglySorted earlier (listeners t w) ∧
  (∀ t', s ∉ listeners t' (removeSubscription s w)) ∧
  (s ∈ listeners t w →
     listeners t (removeSubscription s w) = filter (λ x, x ≠ s) (listeners t w)) ∧
  (getSubscriptionsForType t w = None → listeners t w = []) ∧
  (∀ r, getSubscriptionsForType t w = Some r → (∀ k, slot r k w = None) →
     listeners t w = []) ∧
  listeners t (removeAllListeners (Some t) w) = [] ∧
  listeners t (removeAllListeners None w) = [].
Proof.
  intros Hwf. split_and!.
  - by apply listeners_addSubscription.
  - intros t' Hne. by apply listeners_addSubscription_ne.
  - by apply listeners_sorted.
  - intros t'. by apply removeSubscription_not_listed.
  - by apply listeners_removeSubscription.
  - unfold listeners. by intros ->.
  - intros r Hr Hnone. destruct (listeners t w) as [|x l0] eqn:Hl; [done|].
    assert (x ∈ listeners t w) as Hx by (rewrite Hl; by left).
    apply elem_of_listeners in Hx as (r' & k & Hr' & Hk).
    unfold getSubscriptionsForType in Hr. simplify_eq. by rewrite Hnone in Hk.
  - unfold listeners, getSubscriptionsForType. simpl. by rewrite lookup_delete_eq.
  - unfold listeners, getSubscriptionsForType. simpl. by rewrite lookup_empty.
Qed.

Lemma listeners_in_order_without_removed_witness :
  let t := "type1"%string in
  let w := Samples.two in
  let s := Samples.subscription2 in
  listeners t (addListener t (UserFn 2) VNull w).2 =
    listeners t w ++ [(addListener t (UserFn 2) VNull w).1] ∧
  (∀ t', t' ≠ t → listeners t' (addListener t (UserFn 2) VNull w).2 = listeners t' w) ∧
  StronglySorted earlier (listeners t w) ∧
  (∀ t', s ∉ listeners t' (removeSubscription s w)) ∧
  (s ∈ listeners t w →
     listeners t (removeSubscription s w) = filter (λ x, x ≠ s) (listeners t w)) ∧
  (getSubscriptionsForType t w = None → listeners t w = []) ∧
  (∀ r, getSubscriptionsForType t w = Some r → (∀ k, slot r k w = None) →
     listeners t w = []) ∧
  listeners t (removeAllListeners (Some t) w) = [] ∧
  listeners t (removeAllListeners None w) = [].
Proof.
  apply (listeners_in_order_without_removed "type1" Samples.two Samples.subscription2
           (UserFn 2) VNull).
  exact wf_two.
Defined.

(** The listing of the sample after its second registration is cancelled. *)
Example listeners_two_after_remove :
  listeners "type1" (removeSubscription Samples.subscription2 Samples.two) =
  [mkSubscription (UserFn 1) VUndefined "type1" 0].
Proof. vm_compute. reflexivity. Qed.

(** ** Silent operations *)

Lemma removeSubscription_idem s w :
  removeSubscription s (removeSubscription s w) = removeSubscription s w.
Proof.
  unfold removeSubscription.
  destruct (_subscriptionsForType w !! eventType s) as [r|] eqn:Hr; simpl.
  - rewrite Hr. unfold set_heap. simpl. f_equal.
    rewrite list_alter_alter_eq. apply list_alter_ext; [|done].
    intros a _. simpl. apply list_insert_insert_eq.
  - by rewrite Hr.
Qed.

(** C9: for a type without a bucket, [emit] returns and changes
    nothing, [listeners] is empty, and dropping the bucket or cancelling a
    subscription of that type changes nothing; cancelling any
    subscription twice returns and leaves what one cancellation leaves.
    None of these calls throws. *)
Theorem unknown_type_and_duplicate_removal_are_silent code fuel t args s s' w :
  getSubscriptionsForType t w = None →
  api code fuel (CallEmit t args) w = Returned w ∧
  listeners t w = [] ∧
  api code fuel (CallRemoveAllListeners (Some t)) w = Returned w ∧
  (eventType s = t → api code fuel (CallRemove s) w = Returned w) ∧
  api code fuel (CallRemove s') w = Returned (removeSubscription s' w) ∧
  api_run code fuel [CallRemove s'; CallRemove s'] w =
    Returned (removeSubscription s' w).
Proof.
  intros Hnone. unfold api, api_run. cbn [run step bind].
  unfold emit, listeners. rewrite Hnone.
  unfold getSubscriptionsForType in Hnone.
  split_and!; try done.
  - f_equal. unfold removeAllListeners, removeAllSubscriptions.
    rewrite delete_id by done. by destruct w.
  - intros <-. unfold removeSubscription. by rewrite Hnone.
  - by rewrite removeSubscription_idem.
Qed.

Lemma unknown_type_and_duplicate_removal_are_silent_witness :
  let code := Samples.quiet in
  let w := Samples.one in
  let t := "type2"%string in
  let s := mkSubscription (UserFn 0) VUndefined "type2" 0 in
  let s' := mkSubscription (UserFn 0) Samples.ctx "type1" 0 in
  api code 0 (CallEmit t []) w = Returned w ∧
  listeners t w = [] ∧
  api code 0 (CallRemoveAllListeners (Some t)) w = Returned w ∧
  (eventType s = t → api code 0 (CallRemove s) w = Returned w) ∧
  api code 0 (CallRemove s') w = Returned (removeSubscription s' w) ∧
  api_run code 0 [CallRemove s'; CallRemove s'] w =
    Returned (removeSubscription s' w).
Proof.
  apply (unknown_type_and_duplicate_removal_are_silent Samples.quiet 0 "type2" []).
  vm_compute. reflexivity.
Defined.

(** ** The current subscription *)

(** C1: [emit] does not clear the field on the path where a listener
    throws.  The listener of the sample throws; [emit] propagates the
    exception without reaching line 164, and the field still holds the
    subscription of that listener, although the emission is over. *)
Theorem current_subscription_kept_after_throw :
  Samples.thrower 3 VUndefined [] = [ThrowError "boom"] ∧
  listeners "type1" Samples.throwing =
    [mkSubscription (UserFn 3) VUndefined "type1" 0] ∧
  _currentSubscription Samples.throwing = None ∧
  ∃ w',
    api Samples.thrower 2 (CallEmit "type1" []) Samples.throwing = Thrown "boom" w' ∧
    _currentSubscription w' = Some (mkSubscription (UserFn 3) VUndefined "type1" 0) ∧
    _currentSubscription w' ≠ None.
Proof.
  split_and!; [done|vm_compute; reflexivity|done|].
  eexists. split; [vm_compute; reflexivity|]. split; [vm_compute; reflexivity|].
  vm_compute. discriminate.
Qed.

(** ** removeCurrentListener *)

(** C2: [removeCurrentListener] tests the field and not whether an
    emission is in progress, and [emit] does not maintain the field across
    a nested emission or a throw.  Listener 4 of the sample calls it while
    it is being invoked, after a nested emission has returned: it raises
    the error and removes nothing.  After an emission aborted by the
    throwing listener of the other sample, the client calls it outside any
    emission: it does not raise, and removes the subscription of the
    listener that threw. *)
Theorem removeCurrentListener_ignores_the_call_stack :
  (Samples.nester 4 VUndefined [] = [CallEmit "type2" []; CallRemoveCurrentListener] ∧
   ∃ w', api Samples.nester 3 (CallEmit "type1" []) (Samples.nested 4)
           = Thrown not_emitting w' ∧
         trace w' =
           [Dispatched (mkSubscription (UserFn 4) VUndefined "type1" 0) [];
            Entered 4 VUndefined [];
            Dispatched (mkSubscription (UserFn 0) VUndefined "type2" 0) [];
            Entered 0 VUndefined []] ∧
         listeners "type1" w' = [mkSubscription (UserFn 4) VUndefined "type1" 0]) ∧
  (∃ w' w'',
     api Samples.thrower 2 (CallEmit "type1" []) Samples.throwing = Thrown "boom" w' ∧
     api Samples.thrower 2 CallRemoveCurrentListener w' = Returned w'' ∧
     listeners "type1" w' = [mkSubscription (UserFn 3) VUndefined "type1" 0] ∧
     listeners "type1" w'' = []).
Proof.
  split.
  - split; [done|]. eexists. split_and!; vm_compute; reflexivity.
  - do 2 eexists. split_and!; vm_compute; reflexivity.
Qed.

Lemma removals_elem_of cur body a p :
  a ∈ body → p ∈ removal cur a → p ∈ removals cur body.
Proof.
  intros Ha Hp. apply list_elem_of_In, in_flat_map.
  exists a. split; by apply list_elem_of_In.
Qed.

(** The self-cancelling listener of the sample: it fires in the first
    emission and not in the second (the test "provides a way to remove the
    current listener"). *)
Example removeCurrentListener_sample :
  ∃ w', api_run Samples.remover 2
          [CallEmit "type1" [Samples.data]; CallEmit "type1" [Samples.data]]
          (addListener "type1" (UserFn 2) VUndefined constructor).2 = Returned w' ∧
        trace w' =
          [Dispatched (mkSubscription (UserFn 2) VUndefined "type1" 0) [Samples.data];
           Entered 2 VUndefined [Samples.data]].
Proof. eexists. split; vm_compute; reflexivity. Qed.

(** ** A throwing listener *)

Section NoEmit.

Variable code : FnName → Value → list Value → list Action.
Hypothesis code_no_emit : ∀ f this args, forallb no_emit (code f this args) = true.

Lemma step_no_emit apply a w s :
  no_emit a = true → _currentSubscription w = Some s →
  keeps_current s w (step apply a w).
Proof.
  intros Ha Hc. destruct a as [t f c|t f c|[t|]| |s'| |m]; try done; cbn.
  - unfold addListener. by destruct (addSubscription_frame t (UserFn f) c w) as [-> ->].
  - unfold once, addListener.
    by destruct (addSubscription_frame t (OnceWrapper f c) VUndefined w) as [-> ->].
  - unfold removeCurrentListener. rewrite Hc. cbn.
    by destruct (removeSubscription_frame s w) as (_ & -> & ->).
  - by destruct (removeSubscription_frame s' w) as (_ & -> & ->).
Qed.

Lemma run_no_emit apply body w s :
  forallb no_emit body = true → _currentSubscription w = Some s →
  keeps_current s w (run apply body w).
Proof.
  revert w. induction body as [|a body IH]; intros w Hb Hc; [done|].
  cbn [forallb] in Hb. apply andb_prop in Hb as [Ha Hb].
  pose proof (step_no_emit apply a w s Ha Hc) as Hstep.
  cbn [run]. destruct (step apply a w) as [w1|m w1|]; cbn in *; [|done..].
  destruct Hstep as [Hc1 Ht1].
  pose proof (IH w1 Hb Hc1) as Hrun.
  destruct (run apply body w1) as [w2|m w2|]; cbn in *; [| |done].
  - destruct Hrun as [? ?]. split; congruence.
  - destruct Hrun as [? ?]. split; congruence.
Qed.

Lemma dispatched_record_Entered f this args w :
  dispatched (trace (record (Entered f this args) w)) = dispatched (trace w).
Proof. simpl. rewrite dispatched_app. apply app_nil_r. Qed.

Lemma invoke_no_emit fuel l this args w s :
  _currentSubscription w = Some s →
  keeps_current s w (invoke code fuel l this args w).
Proof.
  revert l this w. induction fuel as [|fuel IH]; intros l this w Hc; [done|].
  cbn [invoke]. destruct l as [f|f c].
  - pose proof (run_no_emit (invoke code fuel) (code f this args)
                  (record (Entered f this args) w) s (code_no_emit f this args) Hc)
      as Hrun.
    unfold keeps_current in *.
    destruct (run _ _ _) as [w'|m w'|]; [| |done];
      by rewrite dispatched_record_Entered in Hrun.
  - unfold removeCurrentListener. rewrite Hc. cbn [bind].
    destruct (removeSubscription_frame s w) as (_ & Hc1 & Ht1).
    assert (_currentSubscription (removeSubscription s w) = Some s) as Hc'
      by congruence.
    pose proof (IH (UserFn f) c (removeSubscription s w) Hc') as Hinv.
    unfold keeps_current in *.
    destruct (invoke code fuel (UserFn f) c args (removeSubscription s w))
      as [w'|m w'|]; [| |done]; by rewrite Ht1 in Hinv.
Qed.

Lemma emit_loop_no_emit fuel r rest keys w m w' :
  emit_loop (invoke code fuel) r rest keys w = Thrown m w' →
  ∃ s, _currentSubscription w' = Some s ∧ last (dispatched (trace w')) = Some s.
Proof.
  revert w. induction keys as [|k keys IH]; intros w Hloop; [done|].
  cbn [emit_loop] in Hloop.
  destruct (slot r k w) as [s|]; [|by apply (IH w)].
  unfold __emitToSubscription in Hloop.
  set (w0 := record (Dispatched s (drop 1 rest)) (set_currentSubscription (Some s) w))
    in *.
  pose proof (invoke_no_emit fuel (listener s) (context s) (drop 1 rest) w0 s eq_refl)
    as Hinv.
  destruct (invoke code fuel (listener s) (context s) (drop 1 rest) w0)
    as [w1|m1 w1|]; cbn in Hloop, Hinv.
  - by apply (IH w1).
  - simplify_eq. exists s. destruct Hinv as [Hc Ht]. split; [done|].
    rewrite Ht. subst w0. simpl. rewrite dispatched_app. simpl.
    apply last_snoc.
  - done.
Qed.

End NoEmit.

(** C10, as stated, fails: listener 5 of the sample emits another event
    before it throws; the nested emission returns and clears the field,
    so that after the outer [emit] has propagated the exception the field
    is null and [removeCurrentListener] raises. *)
Lemma no_stale_subscription_after_nested_emit :
  ∃ w',
    api Samples.nester 3 (CallEmit "type1" []) (Samples.nested 5) = Thrown "boom" w' ∧
    _currentSubscription w' = None ∧
    api Samples.nester 3 CallRemoveCurrentListener w' = Thrown not_emitting w'.
Proof.
  eexists. split; [vm_compute; reflexivity|]. split; vm_compute; reflexivity.
Qed.

(** C10, amended: when listeners start no emissions of their own and
    [emit] propagates an exception, the field holds the subscription that
    was dispatched last, the one whose listener threw; a following
    [removeCurrentListener] returns and cancels that subscription. *)
Theorem stale_subscription_after_throw code fuel fuel' t args w m w' :
  (∀ f this a, forallb no_emit (code f this a) = true) →
  api code fuel (CallEmit t args) w = Thrown m w' →
  ∃ s,
    _currentSubscription w' = Some s ∧
    last (dispatched (trace w')) = Some s ∧
    api code fuel' CallRemoveCurrentListener w' = Returned (removeSubscription s w') ∧
    (wf w' → ∀ t', s ∉ listeners t' (removeSubscription s w')).
Proof.
  intros Hno. unfold api. cbn [step]. unfold emit.
  destruct (getSubscriptionsForType t w) as [r|]; [|done].
  destruct (emit_loop (invoke code fuel) r (VString t :: args)
              (Object_keys (deref r w)) w) as [wl|m1 wl|] eqn:Hloop; cbn [bind]; try done.
  intros [= <- <-].
  destruct (emit_loop_no_emit code Hno fuel r _ _ w m1 wl Hloop) as (s & Hc & Hlast).
  exists s. split_and!; try done.
  - unfold removeCurrentListener. by rewrite Hc.
  - intros Hwf t'. by apply removeSubscription_not_listed.
Qed.

Lemma thrower_no_emit f this a : forallb no_emit (Samples.thrower f this a) = true.
Proof. by destruct f as [|[|[|[|f]]]]. Qed.

Lemma stale_subscription_after_throw_witness :
  ∃ w',
    api Samples.thrower 2 (CallEmit "type1" []) Samples.throwing = Thrown "boom" w' ∧
    ∃ s,
      _currentSubscription w' = Some s ∧
      last (dispatched (trace w')) = Some s ∧
      api Samples.thrower 0 CallRemoveCurrentListener w'
        = Returned (removeSubscription s w') ∧
      (wf w' → ∀ t', s ∉ listeners t' (removeSubscription s w')).
Proof.
  eexists. split; [vm_compute; reflexivity|].
  apply (stale_subscription_after_throw Samples.thrower 2 0 "type1" []
           Samples.throwing "boom").
  - exact thrower_no_emit.
  - vm_compute. reflexivity.
Defined.

(** ** The scenarios of the test suite *)

(** "notifies multiple listeners": both listeners of the sample receive
    the data, in registration order. *)
Example notifies_multiple_listeners :
  ∃ w', api Samples.quiet 2 (CallEmit "type1" [Samples.data]) Samples.two = Returned w' ∧
        trace w' =
          [Dispatched (mkSubscription (UserFn 1) VUndefined "type1" 0) [Samples.data];
           Entered 1 VUndefined [Samples.data];
           Dispatched Samples.subscription2 [Samples.data];
           Entered 0 VUndefined [Samples.data]].
Proof. eexists. split; vm_compute; reflexivity. Qed.

(** "does not notify events of different types". *)
Example different_type_not_notified :
  ∃ w', api Samples.quiet 2 (CallEmit "type2" []) Samples.one = Returned w' ∧
        trace w' = [].
Proof. eexists. split; vm_compute; reflexivity. Qed.

(** "does not notify of events after all listeners are removed". *)
Example nothing_after_removeAllListeners :
  ∃ w', api_run Samples.quiet 2 [CallRemoveAllListeners None; CallEmit "type1" []]
          Samples.one = Returned w' ∧
        trace w' = [].
Proof. eexists. split; vm_compute; reflexivity. Qed.

(** "invokes only the listeners registered at the time the event was
    emitted, even if more were added": listener 1 registers listener 0,
    which does not fire in the same cycle. *)
Example added_listener_not_invoked_in_same_cycle :
  ∃ w', api Samples.adder 2 (CallEmit "type1" [])
          (addListener "type1" (UserFn 1) VUndefined constructor).2 = Returned w' ∧
        trace w' =
          [Dispatched (mkSubscription (UserFn 1) VUndefined "type1" 0) [];
           Entered 1 VUndefined []] ∧
        listeners "type1" w' =
          [mkSubscription (UserFn 1) VUndefined "type1" 0;
           mkSubscription (UserFn 0) VUndefined "type1" 1].
Proof. eexists. split_and!; vm_compute; reflexivity. Qed.

(** "provides a way to register a listener that is invoked once". *)
Example once_sample :
  ∃ w', api_run Samples.quiet 2
          [CallOnce "type1" 0 Samples.ctx;
           CallEmit "type1" [Samples.data]; CallEmit "type1" [Samples.data]]
          constructor = Returned w' ∧
        trace w' =
          [Dispatched (mkSubscription (OnceWrapper 0 Samples.ctx) VUndefined "type1" 0)
             [Samples.data];
           Entered 0 Samples.ctx [Samples.data]] ∧
        listeners "type1" w' = [].
Proof. eexists. split_and!; vm_compute; reflexivity. Qed.

(** * Arbitrary listeners

    The properties below hold whatever the listeners do: they may emit
    in turn, throw, register and cancel. *)

Lemma carries_trans Inv (R : World → World → Prop) w w1 o :
  (∀ a b c, R a b → R b c → R a c) →
  R w w1 → carries Inv R w1 o → carries Inv R w o.
Proof.
  intros Htrans HR. unfold carries, ends_in.
  destruct o as [w'|m w'|]; [| |done]; intros [? ?]; split; eauto.
Qed.

Lemma carries_bind Inv (R : World → World → Prop) w o k :
  (∀ a b c, R a b → R b c → R a c) →
  carries Inv R w o →
  (∀ w1, Inv w1 → R w w1 → carries Inv R w1 (k w1)) →
  carries Inv R w (bind o k).
Proof.
  intros Htrans Ho Hk. destruct o as [w1|m w1|]; cbn in *; [|done..].
  destruct Ho as [HI HR]. eapply carries_trans; eauto.
Qed.

Section Invariant.

Variable code : FnName → Value → list Value → list Action.
Variable ok : Action → bool.
Hypothesis code_ok : ∀ f this args, forallb ok (code f this args) = true.

Variable Inv : World → Prop.
Variable R : World → World → Prop.
Hypothesis R_refl : ∀ w, R w w.
Hypothesis R_trans : ∀ a b c, R a b → R b c → R a c.

(** The calls other than [emit]. *)
Hypothesis H_prim : ∀ apply a w,
  ok a = true → is_emit a = false → Inv w → carries Inv R w (step apply a w).

(** Line 164. *)
Hypothesis H_clear : ∀ w,
  Inv w → Inv (set_currentSubscription None w) ∧ R w (set_currentSubscription None w).

(** Lines 156-161, up to the start of the body of a plain listener. *)
Hypothesis H_user : ∀ t r k x f args w0 w,
  Inv w0 → getSubscriptionsForType t w0 = Some r → R w0 w → Inv w →
  slot r k w = Some x → listener x = UserFn f →
  let w1 := record (Entered f (context x) args)
              (record (Dispatched x args) (set_currentSubscription (Some x) w)) in
  Inv w1 ∧ R w w1.

(** Lines 156-161 and 72, up to the start of the body of a listener
    wrapped by [once]. *)
Hypothesis H_once : ∀ t r k x f c args w0 w,
  Inv w0 → getSubscriptionsForType t w0 = Some r → R w0 w → Inv w →
  slot r k w = Some x → listener x = OnceWrapper f c →
  let w1 := record (Entered f c args)
              (removeSubscription x
                 (record (Dispatched x args) (set_currentSubscription (Some x) w))) in
  Inv w1 ∧ R w w1.

Section Loop.

Variable apply : Listener → Value → list Value → World → Outcome.
Hypothesis apply_fires : ∀ t r k x rest w0 w,
  Inv w0 → getSubscriptionsForType t w0 = Some r → R w0 w → Inv w →
  slot r k w = Some x →
  carries Inv R w
    (__emitToSubscription apply x rest (set_currentSubscription (Some x) w)).

Lemma emit_loop_carries t r rest keys w0 w :
  Inv w0 → getSubscriptionsForType t w0 = Some r → R w0 w → Inv w →
  carries Inv R w (emit_loop apply r rest keys w).
Proof.
  intros H0 Hr. revert w. induction keys as [|k keys IH]; intros w HR HI.
  - cbn. split; [done|apply R_refl].
  - cbn [emit_loop]. destruct (slot r k w) as [x|] eqn:Hk; [|by apply IH].
    apply (carries_bind Inv R w _ _ R_trans); [by apply (apply_fires t r k x rest w0 w)|].
    intros w1 HI1 HR1. apply IH; [|done]. by eapply R_trans.
Qed.

Lemma emit_carries t args w :
  Inv w → carries Inv R w (emit apply t args w).
Proof.
  intros HI. unfold emit.
  destruct (getSubscriptionsForType t w) as [r|] eqn:Hr.
  - apply (carries_bind Inv R w _ _ R_trans); [by apply (emit_loop_carries t r _ _ w w); [|  |apply R_refl|]|].
    intros w1 HI1 HR1. cbn. by apply H_clear.
  - cbn. split; [done|apply R_refl].
Qed.

Lemma step_carries a w :
  ok a = true → Inv w → carries Inv R w (step apply a w).
Proof.
  intros Ha HI. destruct (is_emit a) eqn:He; [|by apply H_prim].
  destruct a; try done. cbn [step]. by apply emit_carries.
Qed.

Lemma run_carries body w :
  forallb ok body = true → Inv w → carries Inv R w (run apply body w).
Proof.
  revert w. induction body as [|a body IH]; intros w Hb HI.
  - cbn. split; [done|apply R_refl].
  - cbn [forallb] in Hb. apply andb_prop in Hb as [Ha Hb]. cbn [run].
    apply (carries_bind Inv R w _ _ R_trans); [by apply step_carries|].
    intros w1 HI1 _. by apply IH.
Qed.

End Loop.

Lemma fire_carries fuel t r k x rest w0 w :
  Inv w0 → getSubscriptionsForType t w0 = Some r → R w0 w → Inv w →
  slot r k w = Some x →
  carries Inv R w
    (__emitToSubscription (invoke code fuel) x rest
       (set_currentSubscription (Some x) w)).
Proof.
  revert t r k x rest w0 w.
  induction fuel as [fuel IH] using lt_wf_ind.
  intros t r k x rest w0 w H0 Hr HR HI Hk.
  unfold __emitToSubscription.
  destruct fuel as [|fuel]; [done|]. cbn [invoke].
  destruct (listener x) as [f|f c] eqn:Hl.
  - destruct (H_user t r k x f (drop 1 rest) w0 w H0 Hr HR HI Hk Hl) as [HI1 HR1].
    apply (carries_trans Inv R w _ _ R_trans HR1).
    apply run_carries; [|apply code_ok|done].
    intros t' r' k' x' rest' w0' w' ? ? ? ? ?.
    apply (IH fuel ltac:(lia) t' r' k' x' rest' w0' w'); done.
  - unfold removeCurrentListener. cbn [_currentSubscription record
      set_currentSubscription bind].
    destruct fuel as [|fuel]; [done|]. cbn [invoke].
    destruct (H_once t r k x f c (drop 1 rest) w0 w H0 Hr HR HI Hk Hl) as [HI1 HR1].
    apply (carries_trans Inv R w _ _ R_trans HR1).
    apply run_carries; [|apply code_ok|done].
    intros t' r' k' x' rest' w0' w' ? ? ? ? ?.
    apply (IH fuel ltac:(lia) t' r' k' x' rest' w0' w'); done.
Qed.

Lemma api_run_carries fuel body w :
  forallb ok body = true → Inv w →
  carries Inv R w (api_run code fuel body w).
Proof.
  intros Hb HI. unfold api_run. apply run_carries; [|done..].
  intros t' r' k' x' rest' w0' w' ? ? ? ? ?.
  by apply (fire_carries fuel t' r' k' x' rest' w0' w').
Qed.

End Invariant.

(** ** Well-formedness is an invariant *)

Lemma wf_removeAllSubscriptions t w : wf w → wf (removeAllSubscriptions t w).
Proof.
  intros [H1 H2 H3]. destruct t as [t|]; split; simpl.
  - intros t' r [_ Hr]%lookup_delete_Some. by eapply H1.
  - intros t1 t2 r [_ Hr1]%lookup_delete_Some [_ Hr2]%lookup_delete_Some.
    by eapply H2.
  - intros t' r k s [_ Hr]%lookup_delete_Some Hk. by eapply H3.
  - intros t' r Hr. by rewrite lookup_empty in Hr.
  - intros t1 t2 r Hr. by rewrite lookup_empty in Hr.
  - intros t' r k s Hr. by rewrite lookup_empty in Hr.
Qed.

Lemma wf_step_prim apply a w :
  is_emit a = false → wf w → ends_in wf (step apply a w).
Proof.
  intros He Hwf. destruct a as [t f c|t f c|t| |s| |m]; try done; cbn.
  - by apply wf_addSubscription.
  - by apply wf_addSubscription.
  - by apply wf_removeAllSubscriptions.
  - unfold removeCurrentListener. destruct (_currentSubscription w); cbn; [|done].
    by apply wf_removeSubscription.
  - by apply wf_removeSubscription.
Qed.

Lemma forallb_always {A} (l : list A) : forallb (λ _, true) l = true.
Proof. by induction l. Qed.

(** X1: whatever the listeners do and however the calls end, a sequence
    of calls on a well-formed emitter leaves it well-formed: every bucket
    has its own array and each stored subscription carries the type of its
    bucket and the index of its slot. *)
Theorem well_formed_after_any_calls code fuel body w :
  wf w → ends_in wf (api_run code fuel body w).
Proof.
  intros Hwf.
  assert (carries wf (λ _ _, True) w (api_run code fuel body w)) as H.
  { apply (api_run_carries code (λ _, true)); try done.
    - intros. apply forallb_always.
    - intros apply a w0 _ He Hw0.
      pose proof (wf_step_prim apply a w0 He Hw0) as Hs.
      unfold carries. by destruct (step apply a w0).
    - intros w0 Hw0. split; [|done]. by apply wf_set_currentSubscription.
    - intros t r k x f args w0 w1 _ _ _ Hw1 _ _. split; [|done].
      by apply wf_record, wf_record, wf_set_currentSubscription.
    - intros t r k x f c args w0 w1 _ _ _ Hw1 _ _. split; [|done].
      by apply wf_record, wf_removeSubscription, wf_record,
        wf_set_currentSubscription.
    - apply forallb_always. }
  unfold carries in H. destruct (api_run code fuel body w); cbn in *; tauto.
Qed.

Lemma well_formed_after_any_calls_witness :
  ends_in wf
    (api_run Samples.nester 3
       [CallEmit "type1" []; CallRemoveAllListeners None; CallOnce "type1" 4 VNull]
       (Samples.nested 5)).
Proof.
  apply well_formed_after_any_calls.
  apply wf_addSubscription, wf_addSubscription, wf_constructor.
Defined.

(** ** What happens between two worlds when no bucket is dropped *)

Lemma extends_refl w : extends w w.
Proof.
  split; try done. exists []. split; [by rewrite app_nil_r|].
  by intros x ?%elem_of_nil.
Qed.

Lemma slot_None_or_Some r k w : slot r k w = None ∨ ∃ x, slot r k w = Some x.
Proof. destruct (slot r k w); eauto. Qed.

Lemma extends_trans w1 w2 w3 : extends w1 w2 → extends w2 w3 → extends w1 w3.
Proof.
  intros [B1 L1 S1 (d1 & T1 & D1)] [B2 L2 S2 (d2 & T2 & D2)]. split.
  - intros t r Hr. by apply B2, B1.
  - intros r. specialize (L1 r). specialize (L2 r). lia.
  - intros r k x Hk Hx. apply S1; [done|]. apply S2; [|done].
    specialize (L1 r). lia.
  - exists (d1 ++ d2). split; [by rewrite T2, T1, app_assoc|].
    intros x Hx r Hr. rewrite dispatched_app in Hx.
    apply elem_of_app in Hx as [Hx|Hx]; [by apply D1|].
    destruct (D2 x Hx r (B1 _ _ Hr)) as [Hs|Hl].
    + destruct (decide (key x < length (deref r w1))) as [Hlt|Hge].
      * left. by apply S1.
      * right. lia.
    + right. specialize (L1 r). lia.
Qed.

(** A step that touches neither the arrays nor the buckets and
    dispatches nothing. *)
Lemma extends_same w w' d :
  heap w' = heap w → _subscriptionsForType w' = _subscriptionsForType w →
  trace w' = trace w ++ d → dispatched d = [] →
  extends w w'.
Proof.
  intros Hh Hm Ht Hd. split.
  - intros t r. by rewrite Hm.
  - intros r. unfold deref. by rewrite Hh.
  - intros r k x _. unfold slot, deref. by rewrite Hh.
  - exists d. split; [done|]. rewrite Hd. by intros x ?%elem_of_nil.
Qed.

Lemma deref_alter (f : Slots → Slots) r0 r w :
  deref r (set_heap (alter f r0 (heap w)) w) =
  if decide (r = r0) then default [] (f <$> heap w !! r) else deref r w.
Proof.
  unfold deref; simpl. destruct (decide (r = r0)) as [->|Hne].
  - by rewrite list_lookup_alter_eq.
  - by rewrite list_lookup_alter_ne.
Qed.

Lemma extends_removeSubscription s w : extends w (removeSubscription s w).
Proof.
  destruct (removeSubscription_frame s w) as (Hm & _ & Ht).
  assert (∀ r, ∃ a, deref r w = a ∧
            (deref r (removeSubscription s w) = a ∨
             deref r (removeSubscription s w) = <[key s := None]> a)) as Hd.
  { intros r. eexists. split; [done|]. unfold removeSubscription.
    destruct (_subscriptionsForType w !! eventType s) as [r0|]; [|by left].
    rewrite deref_alter. case_decide; [|by left]. right.
    unfold deref. by destruct (heap w !! r). }
  split.
  - intros t r. by rewrite Hm.
  - intros r. destruct (Hd r) as (a & -> & [->| ->]); [done|].
    by rewrite length_insert.
  - intros r k x _. rewrite !slot_Some.
    destruct (Hd r) as (a & -> & [->| ->]); [done|].
    destruct (decide (k = key s)) as [->|Hne].
    + intros Hx. pose proof (lookup_lt_Some _ _ _ Hx) as Hlt.
      rewrite length_insert in Hlt. by rewrite list_lookup_insert_eq in Hx.
    + by rewrite list_lookup_insert_ne.
  - exists []. split; [by rewrite Ht, app_nil_r|]. by intros x ?%elem_of_nil.
Qed.

Lemma extends_addSubscription t l c w : wf w → extends w (addSubscription t l c w).2.
Proof.
  intros Hwf. destruct (addSubscription_frame t l c w) as (_ & Ht).
  assert (∀ r, ∃ b, deref r (addSubscription t l c w).2 = deref r w ++ b) as Hd.
  { intros r. unfold addSubscription.
    destruct (_subscriptionsForType w !! t) as [r0|] eqn:Hr0; simpl.
    - rewrite deref_alter. case_decide as Heq; [|exists []; by rewrite app_nil_r].
      subst r0. unfold deref.
      destruct (lookup_lt_is_Some_2 (heap w) r (wf_alloc w Hwf t r Hr0)) as [a ->].
      simpl. by eexists.
    - unfold deref. simpl.
      destruct (decide (r < length (heap w))) as [Hlt|Hge].
      + rewrite lookup_app_l by done. exists []. by rewrite app_nil_r.
      + rewrite (lookup_ge_None_2 (heap w) r) by lia. simpl. by eexists. }
  split.
  - intros t' r. apply lookup_addSubscription_mono.
  - intros r. destruct (Hd r) as [b ->]. rewrite length_app. lia.
  - intros r k x Hk. rewrite !slot_Some. destruct (Hd r) as [b ->].
    by rewrite lookup_app_l.
  - exists []. split; [by rewrite Ht, app_nil_r|]. by intros x ?%elem_of_nil.
Qed.

(** Lines 157-160: the subscription found in the bucket is recorded as
    dispatched. *)
Lemma extends_dispatch t r k x args w :
  wf w → _subscriptionsForType w !! t = Some r → slot r k w = Some x →
  extends w (record (Dispatched x args) (set_currentSubscription (Some x) w)).
Proof.
  intros Hwf Hr Hk. split; try done.
  exists [Dispatched x args]. split; [done|].
  intros y Hy r' Hr'. cbn in Hy. apply list_elem_of_singleton in Hy. subst y.
  destruct (wf_slot w Hwf t r k x Hr Hk) as [Ht Hkey].
  rewrite Ht in Hr'. simplify_eq. by left.
Qed.

Lemma extends_step_prim apply a w :
  keeps_buckets a = true → is_emit a = false → wf w →
  carries wf extends w (step apply a w).
Proof.
  intros Hk He Hwf. destruct a as [t f c|t f c|t| |s| |m]; try done; cbn.
  - split; [by apply wf_addSubscription|by apply extends_addSubscription].
  - split; [by apply wf_addSubscription|by apply extends_addSubscription].
  - unfold removeCurrentListener. destruct (_currentSubscription w); cbn.
    + split; [by apply wf_removeSubscription|apply extends_removeSubscription].
    + split; [done|apply extends_refl].
  - split; [by apply wf_removeSubscription|apply extends_removeSubscription].
  - split; [done|apply extends_refl].
Qed.

Lemma extends_Entered f this args w : extends w (record (Entered f this args) w).
Proof. by apply (extends_same _ _ [Entered f this args]). Qed.

Section KeepsBuckets.

Variable code : FnName → Value → list Value → list Action.
Hypothesis code_keeps : ∀ f this args, forallb keeps_buckets (code f this args) = true.

(** Any sequence of calls that drops no bucket. *)
Lemma api_run_extends fuel body w :
  forallb keeps_buckets body = true → wf w →
  carries wf extends w (api_run code fuel body w).
Proof.
  intros Hb Hwf.
  apply (api_run_carries code keeps_buckets code_keeps wf extends
           extends_refl extends_trans); try done.
  - apply extends_step_prim.
  - intros w0 Hw0. split; [by apply wf_set_currentSubscription|].
    by apply (extends_same _ _ []); [| |rewrite app_nil_r|].
  - intros t r k x f args w0 w1 _ Hr Hext Hw1 Hk _.
    split; [by apply wf_record, wf_record, wf_set_currentSubscription|].
    eapply extends_trans; [|apply extends_Entered].
    apply (extends_dispatch t r k); [done| |done].
    by apply (ext_buckets _ _ Hext).
  - intros t r k x f c args w0 w1 _ Hr Hext Hw1 Hk _.
    split; [by apply wf_record, wf_removeSubscription, wf_record,
              wf_set_currentSubscription|].
    eapply extends_trans; [|apply extends_Entered].
    eapply extends_trans; [|apply extends_removeSubscription].
    apply (extends_dispatch t r k); [done| |done].
    by apply (ext_buckets _ _ Hext).
Qed.

End KeepsBuckets.

(** ** A cancelled subscription stays out *)

(** X2: once a listed subscription has been cancelled, no sequence of
    later calls lists it or dispatches it again, whatever the listeners do
    (nested emissions and throws included), as long as nobody drops a
    bucket with [removeAllListeners]. *)
Theorem cancelled_stays_out code fuel body t s w :
  (∀ f this a, forallb keeps_buckets (code f this a) = true) →
  forallb keeps_buckets body = true →
  wf w → s ∈ listeners t w →
  ends_in (λ w', (s ∉ listeners t w') ∧
                 ∃ δ, trace w' = trace w ++ δ ∧ s ∉ dispatched δ)
    (api_run code fuel body (removeSubscription s w)).
Proof.
  intros Hcode Hbody Hwf Hs.
  pose proof (listeners_eventType t w s Hwf Hs) as Ht.
  apply (elem_of_listeners_wf t w s Hwf) in Hs as (r & Hr & Hk).
  set (w1 := removeSubscription s w).
  destruct (removeSubscription_frame s w) as (Hm & _ & Htr).
  assert (wf w1) as Hwf1 by (by apply wf_removeSubscription).
  assert (_subscriptionsForType w1 !! t = Some r) as Hr1 by (subst w1; by rewrite Hm).
  assert (key s < length (deref r w1)) as Hlt.
  { subst w1. rewrite (length_deref_removeSubscription s w t r Hwf Hr).
    by eapply slot_lt. }
  assert (slot r (key s) w1 = None) as Hnone.
  { subst w1. rewrite (slot_removeSubscription s w t r (key s) Hwf Hr).
    by rewrite decide_True by (by rewrite Ht). }
  assert (trace w1 = trace w) as Htr1 by done.
  pose proof (api_run_extends code Hcode fuel body w1 Hbody Hwf1) as H.
  unfold carries in H. destruct (api_run code fuel body w1) as [w'|m w'|];
    cbn in *; [| |done].
  all: destruct H as [Hwf' [B L S (d & T & D)]]; split.
  all: try (intros (r' & Hr' & Hk')%(elem_of_listeners_wf t w' s Hwf');
            rewrite (B t r Hr1) in Hr'; simplify_eq;
            apply S in Hk'; [congruence|done]).
  all: exists d; split; [by rewrite T, Htr1|];
       intros Hin; destruct (D s Hin r) as [?|?]; [by rewrite Ht|congruence|lia].
Qed.

Lemma nester_keeps_buckets f this a :
  forallb keeps_buckets (Samples.nester f this a) = true.
Proof. by destruct f as [|[|[|[|[|[|f]]]]]]. Qed.

Lemma cancelled_stays_out_witness :
  let s := mkSubscription (UserFn 0) VUndefined "type2" 0 in
  ends_in (λ w', (s ∉ listeners "type2" w') ∧
                 ∃ δ, trace w' = trace (Samples.nested 4) ++ δ ∧ s ∉ dispatched δ)
    (api_run Samples.nester 3 [CallEmit "type1" []; CallEmit "type2" []]
       (removeSubscription s (Samples.nested 4))).
Proof.
  apply (cancelled_stays_out Samples.nester 3
           [CallEmit "type1" []; CallEmit "type2" []] "type2").
  - exact nester_keeps_buckets.
  - reflexivity.
  - apply wf_addSubscription, wf_addSubscription, wf_constructor.
  - vm_compute. left.
Defined.

(** ** once, under arbitrary listeners *)

Lemma times_app s d1 d2 : times s (d1 ++ d2) = times s d1 + times s d2.
Proof. unfold times. by rewrite dispatched_app, filter_app, length_app. Qed.

Lemma times_pos_elem_of s d : 0 < times s d → s ∈ dispatched d.
Proof.
  unfold times. destruct (filter _ _) as [|x l] eqn:Hf; simpl; [lia|]. intros _.
  assert (x ∈ filter (λ x, x = s) (dispatched d)) as Hx by (rewrite Hf; by left).
  apply list_elem_of_filter in Hx as [-> ?]. done.
Qed.

Lemma times_firing s x a f this b :
  times s [Dispatched x a; Entered f this b] = if decide (x = s) then 1 else 0.
Proof.
  unfold times. change (dispatched _) with [x]. rewrite filter_cons.
  by case_decide.
Qed.

Lemma step_prim_trace apply a w :
  is_emit a = false → ends_in (λ w', trace w' = trace w) (step apply a w).
Proof.
  intros He. destruct a as [t f c|t f c|[t|]| |s| |m]; try done; cbn.
  - by destruct (addSubscription_frame t (UserFn f) c w).
  - by destruct (addSubscription_frame t (OnceWrapper f c) VUndefined w).
  - unfold removeCurrentListener. destruct (_currentSubscription w) as [s|]; cbn; [|done].
    by destruct (removeSubscription_frame s w) as (_ & _ & ?).
  - by destruct (removeSubscription_frame s w) as (_ & _ & ?).
Qed.

Section OnceSpent.

Variables (s : EmitterSubscription) (t : EventType) (r : nat).
Variables (f0 : FnName) (c0 : Value).
Hypothesis s_type : eventType s = t.
Hypothesis s_once : listener s = OnceWrapper f0 c0.

Lemma once_spent_quiet w w' :
  extends w w' → (∀ δ, trace w' = trace w ++ δ → times s δ = 0) →
  once_spent s t r w w'.
Proof.
  intros Hext Hd. split; [done|]. intros _ _ δ Hδ.
  rewrite (Hd δ Hδ). split; lia.
Qed.

Lemma once_spent_refl w : once_spent s t r w w.
Proof.
  apply once_spent_quiet; [apply extends_refl|].
  intros δ Hδ. rewrite <- (app_nil_r (trace w)) in Hδ at 1.
  apply app_inv_head in Hδ. by subst δ.
Qed.

Lemma once_spent_trans w1 w2 w3 :
  once_spent s t r w1 w2 → once_spent s t r w2 w3 → once_spent s t r w1 w3.
Proof.
  intros [E1 H1] [E2 H2]. split; [by eapply extends_trans|].
  intros Hr Hlt δ Hδ.
  destruct E1 as [B1 L1 S1 (d1 & T1 & _)].
  destruct E2 as [B2 L2 S2 (d2 & T2 & _)].
  assert (δ = d1 ++ d2) as ->.
  { rewrite T2, T1, <- app_assoc in Hδ. by apply app_inv_head in Hδ. }
  assert (key s < length (deref r w2)) as Hlt2 by (specialize (L1 r); lia).
  destruct (H1 Hr Hlt d1 T1) as [Hle1 Hpos1].
  destruct (H2 (B1 _ _ Hr) Hlt2 d2 T2) as [Hle2 Hpos2].
  rewrite times_app.
  destruct (decide (0 < times s d1)) as [Hp1|Hz1].
  - destruct (Hpos1 Hp1) as [Hs1 Hn2].
    assert (times s d2 = 0) as Hz2.
    { destruct (decide (0 < times s d2)) as [Hp2|]; [|lia].
      destruct (Hpos2 Hp2) as [Hs2 _]. congruence. }
    split; [lia|]. intros _. split; [done|].
    destruct (slot_None_or_Some r (key s) w3) as [?|[x Hx]]; [done|].
    apply S2 in Hx; [congruence|done].
  - split; [lia|]. intros Hp.
    assert (0 < times s d2) as Hp2 by lia.
    destruct (Hpos2 Hp2) as [Hs2 Hn3]. split; [by apply S1|done].
Qed.

Variable code : FnName → Value → list Value → list Action.
Hypothesis code_keeps : ∀ f this args, forallb keeps_buckets (code f this args) = true.

Lemma api_run_once_spent fuel body w :
  forallb keeps_buckets body = true → wf w →
  carries wf (once_spent s t r) w (api_run code fuel body w).
Proof.
  intros Hb Hwf.
  apply (api_run_carries code keeps_buckets code_keeps wf (once_spent s t r)
           once_spent_refl once_spent_trans); try done.
  - intros apply a w0 Hk He Hw0.
    pose proof (extends_step_prim apply a w0 Hk He Hw0) as Hc.
    pose proof (step_prim_trace apply a w0 He) as Ht.
    unfold carries in *. destruct (step apply a w0) as [w'|m w'|]; cbn in *; [| |done].
    all: destruct Hc as [? ?]; split; [done|]; apply once_spent_quiet; [done|].
    all: intros δ Hδ; rewrite Ht, <- (app_nil_r (trace w0)) in Hδ at 1.
    all: apply app_inv_head in Hδ; by subst δ.
  - intros w0 Hw0. split; [by apply wf_set_currentSubscription|].
    apply once_spent_quiet.
    + by apply (extends_same _ _ []); [| |rewrite app_nil_r|].
    + intros δ Hδ. cbn in Hδ. rewrite <- (app_nil_r (trace w0)) in Hδ at 1.
      apply app_inv_head in Hδ. by subst δ.
  - intros t' r' k x f args w0 w1 _ Hr' [Hext _] Hw1 Hk Hl.
    split; [by apply wf_record, wf_record, wf_set_currentSubscription|].
    apply once_spent_quiet.
    + eapply extends_trans; [|apply extends_Entered].
      apply (extends_dispatch t' r' k); [done| |done].
      by apply (ext_buckets _ _ Hext).
    + intros δ Hδ. cbn in Hδ. rewrite <- app_assoc in Hδ.
      apply app_inv_head in Hδ. subst δ. cbn [app]. rewrite times_firing.
      rewrite decide_False; [done|]. intros ->. congruence.
  - intros t' r' k x f c args w0 w1 _ Hr' [Hext _] Hw1 Hk Hl.
    set (wd := record (Dispatched x args) (set_currentSubscription (Some x) w1)).
    assert (wf wd) as Hwfd by (by apply wf_record, wf_set_currentSubscription).
    assert (_subscriptionsForType w1 !! t' = Some r') as Hr1
      by (by apply (ext_buckets _ _ Hext)).
    split; [by apply wf_record, wf_removeSubscription|].
    split.
    + eapply extends_trans; [|apply extends_Entered].
      eapply extends_trans; [|apply extends_removeSubscription].
      by apply (extends_dispatch t' r' k).
    + intros Hr Hlt δ Hδ. cbn in Hδ.
      destruct (removeSubscription_frame x wd) as (_ & _ & Htr).
      rewrite Htr in Hδ. cbn in Hδ. rewrite <- !app_assoc in Hδ.
      apply app_inv_head in Hδ. subst δ. cbn [app]. rewrite times_firing.
      destruct (decide (x = s)) as [->|Hne].
      * split; [lia|]. intros _.
        destruct (wf_slot w1 Hw1 t' r' k s Hr1 Hk) as [Ht' Hkey].
        rewrite s_type in Ht'. subst t'. simplify_eq. split; [done|].
        change (slot r (key s) (record (Entered f c args) (removeSubscription s wd)))
          with (slot r (key s) (removeSubscription s wd)).
        rewrite (slot_removeSubscription s wd (eventType s) r (key s) Hwfd) by done.
        by rewrite decide_True.
      * split; lia.
Qed.

End OnceSpent.

(** X4: a subscription made by [once] is dispatched at most once in
    total over any sequence of calls, whatever the listeners do (nested
    emissions of the same event and throws included), as long as nobody
    drops a bucket; and once it has been dispatched it is no longer
    listed. *)
Theorem once_dispatched_at_most_once code fuel body t s f c w :
  (∀ f this a, forallb keeps_buckets (code f this a) = true) →
  forallb keeps_buckets body = true →
  wf w → s ∈ listeners t w → listener s = OnceWrapper f c →
  ends_in (λ w', ∃ δ, trace w' = trace w ++ δ ∧ times s δ ≤ 1 ∧
                 (0 < times s δ → s ∉ listeners t w'))
    (api_run code fuel body w).
Proof.
  intros Hcode Hbody Hwf Hs Hl.
  pose proof (listeners_eventType t w s Hwf Hs) as Ht.
  apply (elem_of_listeners_wf t w s Hwf) in Hs as (r & Hr & Hk).
  pose proof (slot_lt _ _ _ _ Hk) as Hlt.
  pose proof (api_run_once_spent s t r f c Ht Hl code Hcode fuel body w Hbody Hwf) as H.
  assert (∀ w', wf w' → once_spent s t r w w' →
    ∃ δ, trace w' = trace w ++ δ ∧ times s δ ≤ 1 ∧
         (0 < times s δ → s ∉ listeners t w')) as Hend.
  { intros w' Hwf' [Hext Hsp].
    destruct (ext_trace _ _ Hext) as (d & T & _).
    destruct (Hsp Hr Hlt d T) as [Hle Hpos].
    exists d. split_and!; [done..|].
    intros Hp (r' & Hr' & Hk')%(elem_of_listeners_wf t w' s Hwf').
    rewrite (ext_buckets _ _ Hext t r Hr) in Hr'. simplify_eq.
    destruct (Hpos Hp) as [_ Hn]. congruence. }
  unfold carries in H.
  destruct (api_run code fuel body w) as [w'|m w'|]; cbn in *; [| |done];
    destruct H as [? ?]; by apply Hend.
Qed.

Lemma reentrant_keeps_buckets f this a :
  forallb keeps_buckets (Samples.reentrant f this a) = true.
Proof. by destruct f as [|[|[|[|[|[|[|f]]]]]]]. Qed.

Lemma once_dispatched_at_most_once_witness :
  let s := mkSubscription (OnceWrapper 6 Samples.ctx) VUndefined "type1" 0 in
  ends_in (λ w', ∃ δ, trace w' = trace Samples.once_reentrant ++ δ ∧ times s δ ≤ 1 ∧
                 (0 < times s δ → s ∉ listeners "type1" w'))
    (api_run Samples.reentrant 5 [CallEmit "type1" []; CallEmit "type1" []]
       Samples.once_reentrant).
Proof.
  apply (once_dispatched_at_most_once Samples.reentrant 5
           [CallEmit "type1" []; CallEmit "type1" []] "type1" _ 6 Samples.ctx).
  - exact reentrant_keeps_buckets.
  - reflexivity.
  - apply wf_addSubscription, wf_constructor.
  - vm_compute. left.
  - reflexivity.
Defined.

(** The listener registered through [once] emits its own event: the
    nested emission finds its subscription already removed. *)
Example once_reentrant_sample :
  api_run Samples.reentrant 5 [CallEmit "type1" []; CallEmit "type1" []]
    Samples.once_reentrant =
  Returned
    (mkWorld [[None]] {["type1"%string := 0]} None
       [Dispatched (mkSubscription (OnceWrapper 6 Samples.ctx) VUndefined "type1" 0) [];
        Entered 6 Samples.ctx []]).
Proof. vm_compute. reflexivity. Qed.

(** ** A throwing listener ends the cycle *)

Lemma forallb_weaken {A} (p q : A → bool) (l : list A) :
  (∀ x, p x = true → q x = true) → forallb p l = true → forallb q l = true.
Proof.
  intros Hpq. induction l as [|x l IH]; [done|]. cbn [forallb].
  intros [Hx Hl]%andb_prop. by rewrite (Hpq x Hx), (IH Hl).
Qed.

Lemma plain_no_emit a : plain a = true → no_emit a = true.
Proof. unfold plain. by intros [? _]%andb_prop. Qed.

Lemma plain_keeps_buckets a : plain a = true → keeps_buckets a = true.
Proof. unfold plain. by intros [_ ?]%andb_prop. Qed.

(** Under plain bodies only [ThrowError] throws: the field is set while
    a body runs, so [removeCurrentListener] returns. *)
Lemma run_plain_thrown apply body w m w' :
  forallb plain body = true → is_Some (_currentSubscription w) →
  run apply body w = Thrown m w' → ThrowError m ∈ body.
Proof.
  revert w. induction body as [|a body IH]; intros w Hb [s Hc] Hrun; [done|].
  cbn [forallb] in Hb. apply andb_prop in Hb as [Ha Hb]. cbn [run] in Hrun.
  pose proof (step_no_emit apply a w s (plain_no_emit a Ha) Hc) as Hstep.
  destruct (step apply a w) as [w1|m1 w1|] eqn:Hs; cbn in Hrun, Hstep; [| |done].
  - right. apply (IH w1 Hb); [|done]. destruct Hstep as [-> _]. by eexists.
  - simplify_eq.
    destruct a as [| | | | | |m0]; try done; cbn in Hs.
    + unfold removeCurrentListener in Hs. by rewrite Hc in Hs.
    + simplify_eq. by left.
Qed.

Section Plain.

Variable code : FnName → Value → list Value → list Action.
Hypothesis code_plain : ∀ f this args, forallb plain (code f this args) = true.

Lemma code_plain_no_emit f this args : forallb no_emit (code f this args) = true.
Proof. eapply forallb_weaken; [apply plain_no_emit|apply code_plain]. Qed.

Lemma code_plain_keeps f this args : forallb keeps_buckets (code f this args) = true.
Proof. eapply forallb_weaken; [apply plain_keeps_buckets|apply code_plain]. Qed.

(** One firing: the world it ends in, by return or by throw. *)
Lemma fire_plain fuel t r k x rest w :
  wf w → _subscriptionsForType w !! t = Some r → slot r k w = Some x →
  ends_in (λ w', wf w' ∧ extends w w' ∧ _currentSubscription w' = Some x ∧
                 dispatched (trace w') = dispatched (trace w) ++ [x])
    (__emitToSubscription (invoke code fuel) x rest
       (set_currentSubscription (Some x) w)).
Proof.
  intros Hwf Hr Hk.
  assert (carries wf extends w
            (__emitToSubscription (invoke code fuel) x rest
               (set_currentSubscription (Some x) w))) as Hcar.
  { apply (fire_carries code keeps_buckets code_plain_keeps wf extends
             extends_refl extends_trans) with (t := t) (r := r) (k := k) (w0 := w);
      try done.
    - apply extends_step_prim.
    - intros w0 Hw0. split; [by apply wf_set_currentSubscription|].
      by apply (extends_same _ _ []); [| |rewrite app_nil_r|].
    - intros t' r' k' y f args w0 w1 _ Hr' Hext Hw1 Hk' _.
      split; [by apply wf_record, wf_record, wf_set_currentSubscription|].
      eapply extends_trans; [|apply extends_Entered].
      apply (extends_dispatch t' r' k'); [done| |done].
      by apply (ext_buckets _ _ Hext).
    - intros t' r' k' y f c args w0 w1 _ Hr' Hext Hw1 Hk' _.
      split; [by apply wf_record, wf_removeSubscription, wf_record,
                wf_set_currentSubscription|].
      eapply extends_trans; [|apply extends_Entered].
      eapply extends_trans; [|apply extends_removeSubscription].
      apply (extends_dispatch t' r' k'); [done| |done].
      by apply (ext_buckets _ _ Hext).
    - apply extends_refl. }
  unfold __emitToSubscription in *.
  set (wd := record (Dispatched x (drop 1 rest)) (set_currentSubscription (Some x) w))
    in *.
  pose proof (invoke_no_emit code code_plain_no_emit fuel (listener x) (context x)
                (drop 1 rest) wd x eq_refl) as Hkeep.
  unfold carries, keeps_current in *.
  destruct (invoke code fuel (listener x) (context x) (drop 1 rest) wd)
    as [w'|m w'|]; cbn in *; [| |done].
  all: destruct Hcar as [? ?], Hkeep as [? Hd]; split_and!; try done.
  all: rewrite Hd; subst wd; cbn; by rewrite dispatched_app.
Qed.

Lemma fire_plain_thrown fuel x rest w m w' :
  __emitToSubscription (invoke code fuel) x rest
    (set_currentSubscription (Some x) w) = Thrown m w' →
  ThrowError m ∈ body_of code x (drop 1 rest).
Proof.
  unfold __emitToSubscription, body_of, target, receiver.
  destruct fuel as [|fuel]; [done|]. cbn [invoke].
  destruct (listener x) as [f|f c].
  - apply run_plain_thrown; [apply code_plain|by eexists].
  - unfold removeCurrentListener. cbn [_currentSubscription record
      set_currentSubscription bind].
    destruct fuel as [|fuel]; [done|]. cbn [invoke].
    apply run_plain_thrown; [apply code_plain|].
    cbn. destruct (removeSubscription_frame x
      (record (Dispatched x (drop 1 rest)) (set_currentSubscription (Some x) w)))
      as (_ & -> & _). by eexists.
Qed.

Lemma emit_loop_abort fuel t r rest keys w m w' :
  wf w → _subscriptionsForType w !! t = Some r →
  StronglySorted lt keys → (∀ k, k ∈ keys → k < length (deref r w)) →
  emit_loop (invoke code fuel) r rest keys w = Thrown m w' →
  ∃ fired s,
    dispatched (trace w') = dispatched (trace w) ++ fired ++ [s] ∧
    _currentSubscription w' = Some s ∧
    ThrowError m ∈ body_of code s (drop 1 rest) ∧
    (∀ x, x ∈ fired ++ [s] → key x ∈ keys ∧ slot r (key x) w = Some x) ∧
    StronglySorted earlier (fired ++ [s]).
Proof.
  intros Hwf Hr Hsorted. revert w Hwf Hr.
  induction Hsorted as [|k keys Hsorted IH Hall]; intros w Hwf Hr Hrange Hloop; [done|].
  rewrite Forall_forall in Hall.
  assert (∀ k0, k0 ∈ keys → k0 < length (deref r w)) as Hrange'
    by (intros k0 Hk0; apply Hrange; by right).
  cbn [emit_loop] in Hloop.
  destruct (slot r k w) as [x|] eqn:Hk.
  - pose proof (fire_plain fuel t r k x rest w Hwf Hr Hk) as Hfire.
    destruct (wf_slot w Hwf t r k x Hr Hk) as [_ Hkey].
    destruct (__emitToSubscription (invoke code fuel) x rest
                (set_currentSubscription (Some x) w)) as [w1|m1 w1|] eqn:Hf;
      cbn in Hloop, Hfire; [| |done].
    + destruct Hfire as (Hwf1 & Hext & Hc1 & Hd1).
      destruct (IH w1 Hwf1 (ext_buckets _ _ Hext t r Hr)) as (fired & s & Hd & Hc & Hm & Hin & Hs);
        [|done|].
      { intros k0 Hk0. pose proof (ext_length _ _ Hext r). specialize (Hrange' k0 Hk0). lia. }
      exists (x :: fired), s. split_and!; try done.
      * rewrite Hd, Hd1. by rewrite <- app_assoc.
      * intros y [->|Hy]%elem_of_cons.
        -- rewrite Hkey. split; [by left|done].
        -- destruct (Hin y Hy) as [Hky Hsy]. split; [by right|].
           apply (ext_slot _ _ Hext); [by apply Hrange'|done].
      * cbn [app]. constructor; [done|]. apply Forall_forall.
        intros y Hy. destruct (Hin y Hy) as [Hky _].
        unfold earlier. rewrite Hkey. by apply Hall.
    + assert (m1 = m ∧ w1 = w') as [-> ->] by (split; congruence).
      destruct Hfire as (_ & _ & Hc1 & Hd1).
      exists [], x. split_and!; try done.
      * by apply (fire_plain_thrown fuel x rest w m w').
      * intros y Hy. apply list_elem_of_singleton in Hy. subst y.
        rewrite Hkey. split; [by left|done].
      * repeat constructor.
  - destruct (IH w Hwf Hr Hrange' Hloop) as (fired & s & Hd & Hc & Hm & Hin & Hs).
    exists fired, s. split_and!; try done.
    intros y Hy. destruct (Hin y Hy). split; [by right|done].
Qed.

End Plain.

(** X5: when listeners neither emit nor drop buckets and [emit]
    propagates an exception, the subscriptions dispatched in the cycle are
    listeners of the emitted type that were live at the call, in
    registration order, ending with the one whose body threw that
    exception; no listener registered after it was dispatched, and the
    field still holds it. *)
Theorem throw_ends_the_cycle code fuel t args w m w' :
  (∀ f this a, forallb plain (code f this a) = true) → wf w →
  api code fuel (CallEmit t args) w = Thrown m w' →
  ∃ fired s,
    dispatched (trace w') = dispatched (trace w) ++ fired ++ [s] ∧
    _currentSubscription w' = Some s ∧
    ThrowError m ∈ body_of code s args ∧
    (∀ x, x ∈ fired ++ [s] → x ∈ listeners t w) ∧
    StronglySorted earlier (fired ++ [s]) ∧
    (∀ y, y ∈ listeners t w → key s < key y → y ∉ fired ++ [s]).
Proof.
  intros Hcode Hwf. unfold api. cbn [step]. unfold emit, getSubscriptionsForType.
  destruct (_subscriptionsForType w !! t) as [r|] eqn:Hr; [|done].
  destruct (emit_loop (invoke code fuel) r (VString t :: args)
              (Object_keys (deref r w)) w) as [wl|m1 wl|] eqn:Hloop; cbn [bind]; try done.
  intros [= <- <-].
  assert (∀ k, k ∈ Object_keys (deref r w) → k < length (deref r w)) as Hrange.
  { intros k (x & Hk)%elem_of_Object_keys. by eapply lookup_lt_Some. }
  destruct (emit_loop_abort code Hcode fuel t r (VString t :: args)
              (Object_keys (deref r w)) w m1 wl Hwf Hr (keys_from_sorted _ 0)
              Hrange Hloop)
    as (fired & s & Hd & Hc & Hm & Hin & Hs).
  exists fired, s. split_and!; try done.
  - intros x Hx. destruct (Hin x Hx) as [_ Hsx].
    apply elem_of_listeners. by exists r, (key x).
  - intros y _ Hlt Hy. apply elem_of_app in Hy as [Hy|Hy].
    + pose proof (StronglySorted_app_1_elem_of _ _ _ y s Hs Hy) as He.
      unfold earlier in He. specialize (He ltac:(by left)). lia.
    + apply list_elem_of_singleton in Hy. subst y. lia.
Qed.

Lemma thrower_plain f this a : forallb plain (Samples.thrower f this a) = true.
Proof. by destruct f as [|[|[|[|f]]]]. Qed.

Lemma throw_ends_the_cycle_witness :
  ∃ w',
    api Samples.thrower 2 (CallEmit "type1" [Samples.data]) Samples.around
      = Thrown "boom" w' ∧
    ∃ fired s,
      dispatched (trace w') = dispatched (trace Samples.around) ++ fired ++ [s] ∧
      _currentSubscription w' = Some s ∧
      ThrowError "boom" ∈ body_of Samples.thrower s [Samples.data] ∧
      (∀ x, x ∈ fired ++ [s] → x ∈ listeners "type1" Samples.around) ∧
      StronglySorted earlier (fired ++ [s]) ∧
      (∀ y, y ∈ listeners "type1" Samples.around → key s < key y → y ∉ fired ++ [s]).
Proof.
  eexists. split; [vm_compute; reflexivity|].
  apply (throw_ends_the_cycle Samples.thrower 2 "type1" [Samples.data]
           Samples.around "boom").
  - exact thrower_plain.
  - apply wf_addSubscription, wf_addSubscription, wf_addSubscription, wf_constructor.
  - vm_compute. reflexivity.
Defined.

(** The sample: the first listener fires, the second throws, the third
    is not reached. *)
Example throw_ends_the_cycle_sample :
  ∃ w', api Samples.thrower 2 (CallEmit "type1" [Samples.data]) Samples.around
          = Thrown "boom" w' ∧
        dispatched (trace w') =
          [mkSubscription (UserFn 0) VUndefined "type1" 0;
           mkSubscription (UserFn 3) VUndefined "type1" 1].
Proof. eexists. split; vm_compute; reflexivity. Qed.

(** ** removeAllListeners *)

(** X6: [removeAllListeners(t)] empties the listing of [t] and leaves
    the listing of every other type as it was; [removeAllListeners()]
    empties every listing.  After either, emitting a dropped type returns
    at once and changes nothing, and cancelling a subscription of a dropped
    type changes nothing. *)
Theorem removeAllListeners_scope code fuel t t' args s w :
  t' ≠ t → eventType s = t →
  let w1 := removeAllListeners (Some t) w in
  let w2 := removeAllListeners None w in
  listeners t w1 = [] ∧
  listeners t' w1 = listeners t' w ∧
  listeners t w2 = [] ∧ listeners t' w2 = [] ∧
  api code fuel (CallEmit t args) w1 = Returned w1 ∧
  api code fuel (CallEmit t args) w2 = Returned w2 ∧
  api code fuel (CallRemove s) w1 = Returned w1 ∧
  api code fuel (CallRemove s) w2 = Returned w2.
Proof.
  intros Hne Hs w1 w2.
  assert (_subscriptionsForType w1 !! t = None) as H1
    by (subst w1; simpl; apply lookup_delete_eq).
  assert (∀ t0, _subscriptionsForType w2 !! t0 = None) as H2
    by (intros t0; subst w2; simpl; apply lookup_empty).
  unfold api. cbn [step]. unfold listeners, emit, getSubscriptionsForType,
    removeSubscription.
  rewrite Hs, H1, !H2. split_and!; try done.
  subst w1. simpl. rewrite lookup_delete_ne by done. done.
Qed.

Lemma removeAllListeners_scope_witness :
  let w := Samples.nested 0 in
  let s := mkSubscription (UserFn 0) VUndefined "type1" 0 in
  let w1 := removeAllListeners (Some "type1"%string) w in
  let w2 := removeAllListeners None w in
  listeners "type1" w1 = [] ∧
  listeners "type2" w1 = listeners "type2" w ∧
  listeners "type1" w2 = [] ∧ listeners "type2" w2 = [] ∧
  api Samples.quiet 2 (CallEmit "type1" [Samples.data]) w1 = Returned w1 ∧
  api Samples.quiet 2 (CallEmit "type1" [Samples.data]) w2 = Returned w2 ∧
  api Samples.quiet 2 (CallRemove s) w1 = Returned w1 ∧
  api Samples.quiet 2 (CallRemove s) w2 = Returned w2.
Proof.
  apply (removeAllListeners_scope Samples.quiet 2 "type1" "type2" [Samples.data]
           (mkSubscription (UserFn 0) VUndefined "type1" 0) (Samples.nested 0)).
  - done.
  - reflexivity.
Defined.

(** ** Registering the same listener twice *)

(** X7: registering the same listener with the same context twice on a
    type yields two different subscriptions, listed one after the other
    behind the earlier ones; cancelling the first leaves the second
    listed. *)
Theorem addListener_twice_is_two_subscriptions t l c w :
  wf w →
  let s1 := (addListener t l c w).1 in
  let w1 := (addListener t l c w).2 in
  let s2 := (addListener t l c w1).1 in
  let w2 := (addListener t l c w1).2 in
  s1 ≠ s2 ∧ key s1 < key s2 ∧
  listener s1 = l ∧ listener s2 = l ∧ context s1 = c ∧ context s2 = c ∧
  listeners t w2 = listeners t w ++ [s1; s2] ∧
  listeners t (removeSubscription s1 w2) = listeners t w ++ [s2].
Proof.
  intros Hwf s1 w1 s2 w2. unfold addListener in *.
  assert (wf w1) as Hwf1 by (by apply wf_addSubscription).
  assert (wf w2) as Hwf2 by (by apply wf_addSubscription).
  assert (listeners t w1 = listeners t w ++ [s1]) as HL1
    by (by apply listeners_addSubscription).
  assert (listeners t w2 = listeners t w ++ [s1; s2]) as HL2.
  { subst w2 s2. rewrite (listeners_addSubscription t l c w1 Hwf1), HL1.
    by rewrite <- app_assoc. }
  pose proof (listeners_sorted t w2 Hwf2) as Hsorted. rewrite HL2 in Hsorted.
  apply StronglySorted_app_1_r, StronglySorted_inv in Hsorted as [_ Hlt].
  apply Forall_cons in Hlt as [Hlt _]. unfold earlier in Hlt.
  assert (s1 ∉ listeners t w) as Hfresh1 by (by apply addSubscription_fresh).
  assert (s1 ≠ s2) as Hne by (intros Heq; rewrite <- Heq in Hlt; lia).
  split_and!; try done.
  - subst s1. by rewrite addSubscription_fst.
  - subst s2. by rewrite addSubscription_fst.
  - subst s1. by rewrite addSubscription_fst.
  - subst s2. by rewrite addSubscription_fst.
  - rewrite (listeners_removeSubscription s1 t w2 Hwf2)
      by (rewrite HL2; apply elem_of_app; right; by left).
    rewrite HL2, filter_app. f_equal.
    + apply filter_all. intros x Hx ->. done.
    + rewrite filter_cons_False by (by intros H; apply H).
      by rewrite filter_cons_True.
Qed.

Lemma addListener_twice_is_two_subscriptions_witness :
  let t := "type1"%string in
  let l := UserFn 0 in
  let c := Samples.ctx in
  let w := Samples.one in
  let s1 := (addListener t l c w).1 in
  let w1 := (addListener t l c w).2 in
  let s2 := (addListener t l c w1).1 in
  let w2 := (addListener t l c w1).2 in
  s1 ≠ s2 ∧ key s1 < key s2 ∧
  listener s1 = l ∧ listener s2 = l ∧ context s1 = c ∧ context s2 = c ∧
  listeners t w2 = listeners t w ++ [s1; s2] ∧
  listeners t (removeSubscription s1 w2) = listeners t w ++ [s2].
Proof.
  apply (addListener_twice_is_two_subscriptions "type1" (UserFn 0) Samples.ctx
           Samples.one).
  exact wf_one.
Defined.

(** ** Emission with passive listeners *)

Lemma slot_same_heap r k w w0 : heap w = heap w0 → slot r k w = slot r k w0.
Proof. intros Hh. unfold slot, deref. by rewrite Hh. Qed.

Lemma emit_loop_passive code fuel r rest keys w0 w :
  (∀ f this a, code f this a = []) →
  (∀ k x, slot r k w0 = Some x → ∃ f, listener x = UserFn f) →
  heap w = heap w0 →
  ∃ w', emit_loop (invoke code (S fuel)) r rest keys w = Returned w' ∧
    heap w' = heap w0 ∧
    _subscriptionsForType w' = _subscriptionsForType w ∧
    trace w' =
      trace w ++ flat_map (firing (drop 1 rest)) (omap (λ k, slot r k w0) keys).
Proof.
  intros Hcode Hplain. revert w. induction keys as [|k keys IH]; intros w Hh.
  - exists w. cbn. by rewrite app_nil_r.
  - cbn [emit_loop]. csimpl. rewrite (slot_same_heap r k w w0 Hh).
    destruct (slot r k w0) as [x|] eqn:Hk; [|by apply IH].
    destruct (Hplain k x Hk) as [f Hl].
    unfold __emitToSubscription. rewrite Hl. cbn [invoke]. rewrite Hcode.
    cbn [run bind].
    set (w1 := record (Entered f (context x) (drop 1 rest))
                 (record (Dispatched x (drop 1 rest))
                    (set_currentSubscription (Some x) w))).
    destruct (IH w1 Hh) as (w' & Hloop & Hh' & Hm' & Ht').
    exists w'. split_and!; try done.
    rewrite Ht'. cbn [flat_map]. unfold firing at 2, target, receiver.
    rewrite Hl. subst w1. cbn. by rewrite <- !app_assoc.
Qed.

(** X8: when the listeners do nothing to the emitter and none of the
    live listeners of the type was registered through [once], an emission
    dispatches every live listener of the type in order and changes no
    registration: the listing of every type is the same afterwards, so the
    emission can be repeated with the same effect. *)
Theorem passive_emission_changes_no_registration code fuel t args w :
  (∀ f this a, code f this a = []) →
  (∀ x, x ∈ listeners t w → ∃ f, listener x = UserFn f) →
  1 ≤ fuel →
  ∃ w', api code fuel (CallEmit t args) w = Returned w' ∧
    heap w' = heap w ∧
    _subscriptionsForType w' = _subscriptionsForType w ∧
    trace w' = trace w ++ flat_map (firing args) (listeners t w) ∧
    (∀ t', listeners t' w' = listeners t' w).
Proof.
  intros Hcode Hplain Hfuel. destruct fuel as [|fuel]; [lia|].
  unfold api. cbn [step]. unfold emit, getSubscriptionsForType.
  destruct (_subscriptionsForType w !! t) as [r|] eqn:Hr.
  - destruct (emit_loop_passive code fuel r (VString t :: args)
                (Object_keys (deref r w)) w w Hcode) as (w' & Hloop & Hh & Hm & Ht);
      [|done|].
    { intros k x Hk. apply Hplain. apply elem_of_listeners. by exists r, k. }
    rewrite Hloop. cbn [bind]. eexists. split; [done|]. cbn.
    split_and!; try done.
    + rewrite Ht. cbn [drop]. by rewrite (listeners_keys t r w Hr).
    + intros t'. unfold listeners, getSubscriptionsForType, deref. cbn.
      by rewrite Hm, Hh.
  - exists w. split_and!; try done.
    unfold listeners, getSubscriptionsForType. rewrite Hr. cbn.
    by rewrite app_nil_r.
Qed.

Lemma passive_emission_changes_no_registration_witness :
  ∃ w', api Samples.quiet 1 (CallEmit "type1" [Samples.data]) Samples.two
          = Returned w' ∧
    heap w' = heap Samples.two ∧
    _subscriptionsForType w' = _subscriptionsForType Samples.two ∧
    trace w' =
      trace Samples.two ++ flat_map (firing [Samples.data]) (listeners "type1" Samples.two) ∧
    (∀ t', listeners t' w' = listeners t' Samples.two).
Proof.
  apply (passive_emission_changes_no_registration Samples.quiet 1 "type1"
           [Samples.data] Samples.two).
  - done.
  - intros x Hx. vm_compute in Hx.
    apply elem_of_cons in Hx as [->|Hx]; [by eexists|].
    apply elem_of_cons in Hx as [->|Hx]; [by eexists|].
    by apply elem_of_nil in Hx.
  - lia.
Defined.

(** ** removeCurrentListener, again *)

(** X9: [removeCurrentListener] does not reset the field it reads; a
    second call during the same invocation therefore returns as well and
    changes nothing further. *)
Theorem removeCurrentListener_twice apply s w :
  _currentSubscription w = Some s →
  run apply [CallRemoveCurrentListener] w = Returned (removeSubscription s w) ∧
  _currentSubscription (removeSubscription s w) = Some s ∧
  run apply [CallRemoveCurrentListener; CallRemoveCurrentListener] w =
    Returned (removeSubscription s w).
Proof.
  intros Hc. destruct (removeSubscription_frame s w) as (_ & Hc' & _).
  cbn [run step]. unfold removeCurrentListener. rewrite Hc. cbn [bind].
  rewrite Hc', Hc. cbn [bind]. by rewrite removeSubscription_idem.
Qed.

Lemma removeCurrentListener_twice_witness :
  let s := mkSubscription (UserFn 0) Samples.ctx "type1" 0 in
  let w := set_currentSubscription (Some s) Samples.one in
  run (invoke Samples.quiet 0) [CallRemoveCurrentListener] w
    = Returned (removeSubscription s w) ∧
  _currentSubscription (removeSubscription s w) = Some s ∧
  run (invoke Samples.quiet 0) [CallRemoveCurrentListener; CallRemoveCurrentListener] w =
    Returned (removeSubscription s w).
Proof.
  apply (removeCurrentListener_twice (invoke Samples.quiet 0)
           (mkSubscription (UserFn 0) Samples.ctx "type1" 0)
           (set_currentSubscription
              (Some (mkSubscription (UserFn 0) Samples.ctx "type1" 0)) Samples.one)).
  reflexivity.
Defined.

(** ** Call depth *)

Lemma run_no_emit_finishes apply body w :
  forallb no_emit body = true → run apply body w ≠ OutOfFuel.
Proof.
  revert w. induction body as [|a body IH]; intros w Hb; [done|].
  cbn [forallb] in Hb. apply andb_prop in Hb as [Ha Hb]. cbn [run].
  destruct a as [| | | | | |]; try done; cbn; try done; try apply (IH _ Hb).
  unfold removeCurrentListener. destruct (_currentSubscription w); cbn; [|done].
  apply (IH _ Hb).
Qed.

(** X10: when no listener starts an emission of its own, [emit]
    finishes, by returning or by propagating an exception, within two
    nested calls: the closure made by [once] and the listener. *)
Theorem emit_finishes_without_nesting code fuel t args w :
  (∀ f this a, forallb no_emit (code f this a) = true) → 2 ≤ fuel →
  api code fuel (CallEmit t args) w ≠ OutOfFuel.
Proof.
  intros Hcode Hfuel. destruct fuel as [|[|fuel]]; [lia..|].
  assert (∀ l this a w0, invoke code (S (S fuel)) l this a w0 ≠ OutOfFuel) as Hinv.
  { intros l this a w0. cbn [invoke]. destruct l as [f|f c].
    - by apply run_no_emit_finishes.
    - unfold removeCurrentListener.
      destruct (_currentSubscription w0); cbn; [|done].
      by apply run_no_emit_finishes. }
  assert (∀ r rest keys w0,
            emit_loop (invoke code (S (S fuel))) r rest keys w0 ≠ OutOfFuel) as Hloop.
  { intros r rest keys. induction keys as [|k keys IH]; intros w0; [done|].
    cbn [emit_loop]. destruct (slot r k w0) as [x|]; [|apply IH].
    unfold __emitToSubscription.
    pose proof (Hinv (listener x) (context x) (drop 1 rest)
                  (record (Dispatched x (drop 1 rest))
                     (set_currentSubscription (Some x) w0))) as Hx.
    destruct (invoke _ _ _ _ _ _); cbn; [apply IH|done..]. }
  unfold api. cbn [step]. unfold emit.
  destruct (getSubscriptionsForType t w) as [r|]; [|done].
  pose proof (Hloop r (VString t :: args) (Object_keys (deref r w)) w) as Hl.
  by destruct (emit_loop _ _ _ _ _).
Qed.

Lemma emit_finishes_without_nesting_witness :
  api Samples.thrower 2 (CallEmit "type1" [Samples.data]) Samples.around ≠ OutOfFuel.
Proof.
  apply emit_finishes_without_nesting.
  - exact thrower_no_emit.
  - lia.
Defined.

(** * Emission cycles in full *)

(** ** Which listeners an emission invokes, exactly *)



(** ** What a listener is applied to, exactly *)

Lemma emit_loop_via_hook apply r rest keys w :
  emit_loop apply r rest keys w =
  emit_loop_via (__emitToSubscription apply) r rest keys w.
Proof.
  revert w. induction keys as [|k keys IH]; intros w; [done|].
  cbn [emit_loop emit_loop_via]. destruct (slot r k w) as [x|]; [|apply IH].
  destruct (__emitToSubscription apply x rest _); cbn [bind]; [apply IH|done..].
Qed.

Lemma emit_via_hook apply t args w :
  emit apply t args w = emit_via (__emitToSubscription apply) t args w.
Proof.
  unfold emit, emit_via. destruct (getSubscriptionsForType t w) as [r|]; [|done].
  by rewrite emit_loop_via_hook.
Qed.

(** The loop consults the hook only at the argument list it was given. *)
Lemma emit_loop_via_ext hook hook' r rest keys w :
  (∀ x w0, hook x rest w0 = hook' x rest w0) →
  emit_loop_via hook r rest keys w = emit_loop_via hook' r rest keys w.
Proof.
  intros Hext. revert w. induction keys as [|k keys IH]; intros w; [done|].
  cbn [emit_loop_via]. destruct (slot r k w) as [x|]; [|apply IH].
  rewrite Hext. destruct (hook' x rest _); cbn [bind]; [apply IH|done..].
Qed.

(** C7, amended: [emit] calls [__emitToSubscription] with the
    subscription followed by the event type and the emitted data, and with
    nothing else; [__emitToSubscription] drops the event type and applies
    the stored listener to the registered context and the emitted data.
    When listeners neither emit, throw, nor call [removeAllListeners], the
    trace of an emission consists of one dispatch per subscription fired,
    each followed by the entry of its function with its receiver (the
    registered context, or for [once] the context given to [once]) and
    with the emitted data alone, in the order given to [emit]; the
    subscriptions fired are taken in registration order from those live at
    the call, and one of those fires exactly when no subscription fired
    earlier in the cycle removed it. *)
Theorem listener_gets_context_and_data code fuel t args w :
  (∀ f this a, forallb tame (code f this a) = true) → wf w → 2 ≤ fuel →
  ∃ w' fired,
    api code fuel (CallEmit t args) w = Returned w' ∧
    trace w' =
      trace w ++
      flat_map (λ s, [Dispatched s args; Entered (target s) (receiver s) args]) fired ∧
    fired `sublist_of` listeners t w ∧
    (∀ s, s ∈ listeners t w →
       (s ∈ fired ↔
        ∀ s1, s1 ∈ fired → key s1 < key s → (t, key s) ∉ cleared code args s1)) ∧
    (∀ s f, listener s = UserFn f → target s = f ∧ receiver s = context s) ∧
    (∀ s f c, listener s = OnceWrapper f c → target s = f ∧ receiver s = c) ∧
    (∀ apply, emit apply t args w = emit_via (__emitToSubscription apply) t args w) ∧
    (∀ hook hook',
       (∀ x w0, hook x (VString t :: args) w0 = hook' x (VString t :: args) w0) →
       emit_via hook t args w = emit_via hook' t args w) ∧
    (∀ apply s w0,
       __emitToSubscription apply s (VString t :: args) w0 =
       apply (listener s) (context s) args (record (Dispatched s args) w0)).
Proof.
  intros Htame Hwf Hfuel.
  destruct (emit_tame code Htame fuel t args w Hwf Hfuel)
    as (w' & Hemit & _ & Htr & _).
  exists w', (survivors code args (listeners t w) []).
  split_and!; try done.
  - apply survivors_sublist.
  - intros s Hs.
    rewrite (survivors_spec code args _ [] s (listeners_sorted t w Hwf)).
    rewrite (listeners_eventType t w s Hwf Hs). split.
    + by intros (_ & _ & H).
    + intros H. split_and!; [done|by intros ?%elem_of_nil|done].
  - intros s f Hl. unfold target, receiver. by rewrite Hl.
  - intros s f c Hl. unfold target, receiver. by rewrite Hl.
  - intros apply. apply emit_via_hook.
  - intros hook hook' Hext. unfold emit_via.
    destruct (getSubscriptionsForType t w) as [r|]; [|done].
    by rewrite (emit_loop_via_ext hook hook' r _ _ w Hext).
Qed.

Lemma listener_gets_context_and_data_witness :
  let t := "type1"%string in
  let args := [Samples.data] in
  let w := Samples.one in
  ∃ w' fired,
    api Samples.quiet 2 (CallEmit t args) w = Returned w' ∧
    trace w' =
      trace w ++
      flat_map (λ s, [Dispatched s args; Entered (target s) (receiver s) args]) fired ∧
    fired `sublist_of` listeners t w ∧
    (∀ s, s ∈ listeners t w →
       (s ∈ fired ↔
        ∀ s1, s1 ∈ fired → key s1 < key s → (t, key s) ∉ cleared Samples.quiet args s1)) ∧
    (∀ s f, listener s = UserFn f → target s = f ∧ receiver s = context s) ∧
    (∀ s f c, listener s = OnceWrapper f c → target s = f ∧ receiver s = c) ∧
    (∀ apply, emit apply t args w = emit_via (__emitToSubscription apply) t args w) ∧
    (∀ hook hook',
       (∀ x w0, hook x (VString t :: args) w0 = hook' x (VString t :: args) w0) →
       emit_via hook t args w = emit_via hook' t args w) ∧
    (∀ apply s w0,
       __emitToSubscription apply s (VString t :: args) w0 =
       apply (listener s) (context s) args (record (Dispatched s args) w0)).
Proof.
  apply (listener_gets_context_and_data Samples.quiet 2 "type1" [Samples.data]
           Samples.one).
  - exact quiet_tame.
  - exact wf_one.
  - lia.
Defined.

(** ** Listeners registered while an emission runs *)

Section TameRegisters.

Variable code : FnName → Value → list Value → list Action.
Hypothesis code_tame : ∀ f this args, forallb tame (code f this args) = true.
Variables (t : EventType) (r : nat).




End TameRegisters.





(** ** Removal while an emission runs *)



Section KeepsBucketsLoop.

Variable code : FnName → Value → list Value → list Action.
Hypothesis code_keeps : ∀ f this args, forallb keeps_buckets (code f this args) = true.



End KeepsBucketsLoop.







(** ** once, from registration to the first emission *)

Section OnceFirstEmit.

Variable code : FnName → Value → list Value → list Action.
Hypothesis code_keeps : ∀ f this args, forallb keeps_buckets (code f this args) = true.



End OnceFirstEmit.





